(** * Note Diff plugin: the line-diff display of [DiffModal]

    A shallow embedding of [src/DiffModal.ts]: the modal's fields, the
    loading of the two notes through the vault, and [updateDiffDisplay],
    which runs [Diff.diffLines] over the two contents and turns every
    part into a span of prefixed lines. The earlier version of the modal,
    which always takes two files, builds its spans with the same loop.
    The search field, the plugin's file menu, command and settings, and
    that earlier modal follow in modules of their own. The heading and the
    elements of the suggestion list are left out: they do not touch the
    contents or the result area. *)

From Stdlib Require Import String Ascii List Bool Arith Lia.
Import ListNotations.
Open Scope string_scope.
Open Scope list_scope.

(** ** JavaScript string operations used by the modal

    A string is its sequence of code units; the operations below single
    out the line feed only. *)

Module JsString.

(** The line feed, ["\n"] in the source. *)
Definition nl : ascii := "010"%char.
Definition NL : string := String nl "".

(** [chars.join('')]. *)
Definition join (l : list string) : string := fold_right append "" l.

(** [s.split("\n")]: the pieces between line feeds, never an empty array. *)
Fixpoint split (s : string) : list string :=
  match s with
  | "" => [""]
  | String c s' =>
      if Ascii.eqb c nl then "" :: split s'
      else match split s' with
           | l :: ls => String c l :: ls
           | [] => [String c ""]
           end
  end.

(** [s.split(/(\n)/)]: as [split], with every separator kept as a piece. *)
Fixpoint splitKeep (s : string) : list string :=
  match s with
  | "" => [""]
  | String c s' =>
      if Ascii.eqb c nl then "" :: NL :: splitKeep s'
      else match splitKeep s' with
           | l :: ls => String c l :: ls
           | [] => [String c ""]
           end
  end.

(** [s.endsWith(suffix)]. *)
Fixpoint endsWith (s suffix : string) : bool :=
  String.eqb s suffix ||
  match s with
  | "" => false
  | String _ s' => endsWith s' suffix
  end.

(** [s.includes(sub)]. *)
Fixpoint includes (s sub : string) : bool :=
  String.prefix sub s ||
  match s with
  | "" => false
  | String _ s' => includes s' sub
  end.

(** Truthiness of a string: [!s] holds exactly for the empty string. *)
Definition falsy (s : string) : bool :=
  match s with "" => true | _ => false end.

(** [lines[lines.length - 1] === ""]; on an empty array the element is
    [undefined] and the test fails. *)
Definition lastIsEmpty (lines : list string) : bool :=
  match nth_error lines (List.length lines - 1) with
  | Some l => String.eqb l ""
  | None => false
  end.

(** [if (lines[lines.length - 1] === "") lines.pop()]. *)
Definition popEmptyLast (lines : list string) : list string :=
  if lastIsEmpty lines then removelast lines else lines.

(** Number of line feeds in a string. *)
Fixpoint countNL (s : string) : nat :=
  match s with
  | "" => 0
  | String c s' => (if Ascii.eqb c nl then 1 else 0) + countNL s'
  end.

(** Whether a string holds a line feed. *)
Fixpoint hasNL (s : string) : bool :=
  match s with
  | "" => false
  | String c s' => Ascii.eqb c nl || hasNL s'
  end.

End JsString.
Import JsString.

(** ** The line diff of the [diff] package *)

Module Diff.

(** One part of a diff result: the text of a run of tokens, flagged
    [added], [removed] or neither. *)
Record Change := mkChange {
  added : bool;
  removed : bool;
  value : string
}.

Inductive Op := Keep | Del | Ins.

Definition Edit : Type := Op * string.

Definition Op_eqb (a b : Op) : bool :=
  match a, b with
  | Keep, Keep | Del, Del | Ins, Ins => true
  | _, _ => false
  end.

(** Tokens that are the empty string are dropped before comparing. *)
Definition removeEmpty (tokens : list string) : list string :=
  filter (fun t => negb (falsy t)) tokens.

(** The tokens of a text when the line feed is a token of its own: the
    contents of the lines and the line feeds between them, in order; the
    final empty piece of a text that ends in a line feed is ignored. *)
Definition tokenize (text : string) : list string :=
  popEmptyLast (splitKeep text).

Definition shorter (a b : list Edit) : list Edit :=
  if Nat.leb (List.length a) (List.length b) then a else b.

(** Longest common subsequence over the tokens, compared exactly: equal
    heads are kept, otherwise the shorter of deleting the old head and
    inserting the new one wins, deletion first on a tie. *)
Fixpoint diffTokens (old : list string) : list string -> list Edit :=
  match old with
  | [] => fun new => map (pair Ins) new
  | x :: old' =>
      fix inner (new : list string) : list Edit :=
        match new with
        | [] => map (pair Del) (x :: old')
        | y :: new' =>
            if String.eqb x y then (Keep, x) :: diffTokens old' new'
            else shorter ((Del, x) :: diffTokens old' new)
                         ((Ins, y) :: inner new')
        end
  end.

(** The tokens of the old text in an edit script: all but the insertions. *)
Definition oldTokens (edits : list Edit) : list string :=
  map snd (filter (fun e => negb (Op_eqb (fst e) Ins)) edits).

(** The tokens of the new text in an edit script: all but the deletions. *)
Definition newTokens (edits : list Edit) : list string :=
  map snd (filter (fun e => negb (Op_eqb (fst e) Del)) edits).

Definition changeOf (op : Op) (text : string) : Change :=
  {| added := Op_eqb op Ins; removed := Op_eqb op Del; value := text |}.

Definition opOf (c : Change) : Op :=
  if added c then Ins else if removed c then Del else Keep.

(** A part that does not carry both flags. *)
Definition oneFlag (c : Change) : Prop := added c && removed c = false.

(** Consecutive edits of one kind are joined into one part. *)
Fixpoint buildValues (edits : list Edit) : list Change :=
  match edits with
  | [] => []
  | (op, t) :: edits' =>
      match buildValues edits' with
      | c :: cs =>
          if Op_eqb op (opOf c)
          then changeOf op (t ++ value c) :: cs
          else changeOf op t :: c :: cs
      | [] => [changeOf op t]
      end
  end.

(** Modelled from the spec: [Diff.diffLines] of the external [diff]
    package, which is not part of the sources. The model is the
    line-oriented diff of the specification, a longest common subsequence
    over line tokens, taken with the options of the one call in
    [updateDiffDisplay]: [newlineIsToken: true] (every line feed is a token
    of its own) and [ignoreWhitespace: false] (tokens are compared exactly).
    The result is the sequence of maximal runs of kept, removed and added
    tokens, in document order. *)
Definition diffLines (oldStr newStr : string) : list Change :=
  buildValues (diffTokens (removeEmpty (tokenize oldStr))
                          (removeEmpty (tokenize newStr))).

End Diff.

(** ** The modal *)

Module DiffModal.

Import Diff.

Record TFile := mkTFile {
  path : string;
  basename : string
}.

(** Outcome of [app.vault.cachedRead(file)]: the decoded text, or an
    exception whose [message] may be undefined. *)
Inductive ReadResult :=
| Content (text : string)
| Throws (message : option string).

Definition Vault : Type := TFile -> ReadResult.

(** A line of a part: [lineSpan.textContent], and whether a [br] element
    was created after it. *)
Record LineSpan := mkLineSpan {
  textContent : string;
  br : bool
}.

(** The span created for one part, with its class and its line spans. *)
Record Span := mkSpan {
  cls : string;
  lineSpans : list LineSpan
}.

(** Children of [resultEl]: a text set with [setText], or a span of the
    appended fragment. *)
Inductive Node :=
| TextNode (text : string)
| SpanNode (span : Span).

(** The fields of the class, followed by the two effects it has on its
    surroundings: the notices shown to the user, and the calls made to
    [Diff.diffLines] (most recent last). *)
Record State := mkState {
  file1 : TFile;
  file2 : option TFile;
  file2Content : string;
  file1Content : string;
  resultEl : list Node;
  initialFile2Provided : bool;
  notices : list string;
  diffCalls : list (string * string)
}.

Definition set_file2 (f : option TFile) (st : State) : State :=
  mkState (file1 st) f (file2Content st) (file1Content st) (resultEl st)
          (initialFile2Provided st) (notices st) (diffCalls st).

Definition set_file2Content (c : string) (st : State) : State :=
  mkState (file1 st) (file2 st) c (file1Content st) (resultEl st)
          (initialFile2Provided st) (notices st) (diffCalls st).

Definition set_file1Content (c : string) (st : State) : State :=
  mkState (file1 st) (file2 st) (file2Content st) c (resultEl st)
          (initialFile2Provided st) (notices st) (diffCalls st).

Definition set_resultEl (r : list Node) (st : State) : State :=
  mkState (file1 st) (file2 st) (file2Content st) (file1Content st) r
          (initialFile2Provided st) (notices st) (diffCalls st).

(** [new Notice(text)]. *)
Definition Notice (text : string) (st : State) : State :=
  mkState (file1 st) (file2 st) (file2Content st) (file1Content st)
          (resultEl st) (initialFile2Provided st) (notices st ++ [text])
          (diffCalls st).

Definition logDiffCall (a b : string) (st : State) : State :=
  mkState (file1 st) (file2 st) (file2Content st) (file1Content st)
          (resultEl st) (initialFile2Provided st) (notices st)
          (diffCalls st ++ [(a, b)]).

(** [resultEl.setText(text)] replaces the children by one text. *)
Definition setText (text : string) (st : State) : State :=
  set_resultEl [TextNode text] st.

(** [constructor(app, file1, file2?)]. *)
Definition constructor (f1 : TFile) (f2 : option TFile) : State :=
  {| file1 := f1;
     file2 := f2;
     file2Content := "";
     file1Content := "";
     resultEl := [];
     initialFile2Provided := match f2 with Some _ => true | None => false end;
     notices := [];
     diffCalls := [] |}.

(** [array.forEach((x, index) => ...)], collecting what each call builds. *)
Fixpoint forEachFrom {A B : Type} (f : A -> nat -> B) (index : nat)
    (l : list A) : list B :=
  match l with
  | [] => []
  | x :: l' => f x index :: forEachFrom f (S index) l'
  end.

Definition forEach {A B : Type} (f : A -> nat -> B) (l : list A) : list B :=
  forEachFrom f 0 l.

(** The class of the span of a part. *)
Definition clsOf (part : Change) : string :=
  if added part then "diff-added"
  else if removed part then "diff-removed"
  else "diff-unchanged".

(** The prefix of the lines of a part: [let prefix = "  "], overwritten
    for an added part and then for a removed part. *)
Definition prefixOf (part : Change) : string :=
  let prefix := "  " in
  let prefix := if added part then "+ " else prefix in
  let prefix := if removed part then "- " else prefix in
  prefix.

(** [part.value.split("\n")] without a final empty string. *)
Definition linesOf (part : Change) : list string :=
  popEmptyLast (split (value part)).

(** The line span of [line] at [index] among [lines]. *)
Definition renderLine (part : Change) (lines : list string)
    (line : string) (index : nat) : LineSpan :=
  {| textContent := prefixOf part ++ line;
     br := Nat.ltb index (List.length lines - 1) || endsWith (value part) NL |}.

(** The body of [diffResult.forEach]: the span built for one part. *)
Definition renderPart (part : Change) : Span :=
  let lines := linesOf part in
  {| cls := clsOf part;
     lineSpans := forEach (renderLine part lines) lines |}.

(** The spans of the fragment for two contents. *)
Definition renderDiff (content1 content2 : string) : list Span :=
  map renderPart (diffLines content1 content2).

(** The guard of [updateDiffDisplay]; [file1] is never null. *)
Definition notReady (st : State) : bool :=
  match file2 st with None => true | Some _ => false end
  || falsy (file1Content st)
  || falsy (file2Content st).

Definition updateDiffDisplay (st : State) : State :=
  let st := set_resultEl [] st in
  if notReady st then
    match file2 st with
    | None => setText "Select a file to compare against." st
    | Some _ =>
        if falsy (file1Content st) || falsy (file2Content st)
        then setText "Waiting for file content..." st
        else setText "Ready for comparison." st
    end
  else
    let st := logDiffCall (file1Content st) (file2Content st) st in
    let fragment := map SpanNode (renderDiff (file1Content st) (file2Content st)) in
    set_resultEl (resultEl st ++ fragment) st.

(** The [catch] block of [loadFilesContent]. *)
Definition loadFailed (message : option string) (st : State) : bool * State :=
  let mentionsFile1 :=
    match message with
    | Some m => includes m (basename (file1 st))
    | None => false
    end in
  let failedFile :=
    if mentionsFile1 then basename (file1 st)
    else match file2 st with
         | Some f2 => if falsy (basename f2) then "unknown file" else basename f2
         | None => "unknown file"
         end in
  (false, Notice ("Error reading content for " ++ failedFile) st).

Definition loadFilesContent (vault : Vault) (st : State) : bool * State :=
  match vault (file1 st) with
  | Throws message => loadFailed message st
  | Content c1 =>
      let st := set_file1Content c1 st in
      match file2 st with
      | Some f2 =>
          match vault f2 with
          | Throws message => loadFailed message st
          | Content c2 => (true, set_file2Content c2 st)
          end
      | None =>
          if initialFile2Provided st
          then (false, Notice "Internal error: File 2 missing." st)
          else (true, st)
      end
  end.

(** [onOpen], from the creation of the result area on. *)
Definition onOpen (vault : Vault) (st : State) : State :=
  let st := setText "Loading comparison..." (set_resultEl [] st) in
  let (success, st) := loadFilesContent vault st in
  if success then updateDiffDisplay st
  else setText "Error loading file content." st.

Definition selectFile (vault : Vault) (file : TFile) (st : State) : State :=
  let st := set_file2 (Some file) st in
  let st := Notice ("Selected: " ++ basename file) st in
  let (success, st) := loadFilesContent vault st in
  if success then updateDiffDisplay st
  else
    let st := set_file2 None st in
    let st := set_file2Content "" st in
    updateDiffDisplay st.

(** The search field's [onChange] with an empty value. *)
Definition searchCleared (st : State) : State :=
  updateDiffDisplay (set_file2 None st).

(** Whether a second file is selected. *)
Definition selected (st : State) : bool :=
  match file2 st with Some _ => true | None => false end.

(** Reading the first file fails, or a second file is set and reading it
    fails. *)
Definition readFails (vault : Vault) (st : State) : Prop :=
  (exists message, vault (file1 st) = Throws message) \/
  (exists f2 message, file2 st = Some f2 /\ vault f2 = Throws message).

(** All line spans below [resultEl], in document order. *)
Definition displayedLines (st : State) : list LineSpan :=
  flat_map (fun n => match n with
                     | SpanNode sp => lineSpans sp
                     | TextNode _ => []
                     end) (resultEl st).

End DiffModal.

(** ** What the specification calls lines and documents *)

Module Spec.

Import Diff.

(** Number of lines of a text: one per line feed, and one more for a
    last line that is not terminated. *)
Definition lineCount (text : string) : nat :=
  countNL text +
  (if falsy text || endsWith text NL then 0 else 1).

(** The first document as the parts describe it: the unchanged and
    removed parts, in order. *)
Definition oldText (parts : list Change) : string :=
  join (map value (filter (fun c => negb (added c)) parts)).

(** The second document: the unchanged and added parts, in order. *)
Definition newText (parts : list Change) : string :=
  join (map value (filter (fun c => negb (removed c)) parts)).

(** The lines of a text, read off the text itself: every line feed ends
    a line, and what follows the last line feed is a line if it is not
    empty. *)
Fixpoint textLines (text : string) : list string :=
  match text with
  | "" => []
  | String c text' =>
      if Ascii.eqb c nl then "" :: textLines text'
      else match textLines text' with
           | l :: ls => String c l :: ls
           | [] => [String c ""]
           end
  end.

(** What is said of the display of two texts that differ only in a
    trailing space: a removed line ["a "], an added line ["a"], and no
    unchanged line. *)
Definition changedOnly (spans : list DiffModal.Span) : Prop :=
  (exists sp, In sp spans /\ DiffModal.cls sp = "diff-removed" /\
              In "- a " (map DiffModal.textContent (DiffModal.lineSpans sp))) /\
  (exists sp, In sp spans /\ DiffModal.cls sp = "diff-added" /\
              In "+ a" (map DiffModal.textContent (DiffModal.lineSpans sp))) /\
  (forall sp, In sp spans -> DiffModal.cls sp = "diff-unchanged" ->
              DiffModal.lineSpans sp = []).

(** What is said of a document that was read: after [onOpen] on two
    files that were both read, the diff was run on the two contents. *)
Definition comparesWhatWasRead (vault : DiffModal.Vault)
    (f1 f2 : DiffModal.TFile) : Prop :=
  forall c1 c2,
    vault f1 = DiffModal.Content c1 ->
    vault f2 = DiffModal.Content c2 ->
    DiffModal.diffCalls
      (DiffModal.onOpen vault (DiffModal.constructor f1 (Some f2)))
    = [(c1, c2)].

End Spec.

(** ** The search field of the modal *)

Module Search.

Import DiffModal.

Section WithLowerCase.

(** [s.toLowerCase()], which the code units modelled here do not
    determine; everything below holds for any such function. *)
Variable toLowerCase : string -> string.

(** The filter of the suggestions: the lower-cased path includes the
    search term, and the path is not the path of the first file. *)
Definition isSuggested (st : State) (searchTerm : string) (file : TFile) : bool :=
  includes (toLowerCase (path file)) searchTerm
  && negb (String.eqb (path file) (path (file1 st))).

(** [markdownFiles.filter(...).slice(0, 10)]. *)
Definition suggestionsFor (markdownFiles : list TFile) (value : string)
    (st : State) : list TFile :=
  let searchTerm := toLowerCase value in
  firstn 10 (filter (isSuggested st searchTerm) markdownFiles).

(** [search.onChange]: the state afterwards and the suggestions shown. *)
Definition onChange (markdownFiles : list TFile) (value : string)
    (st : State) : State * list TFile :=
  if falsy value then (searchCleared st, [])
  else (st, suggestionsFor markdownFiles value st).

(** The two files of a modal, when there are two, have different paths:
    what every [new DiffModal] of the plugin provides. *)
Definition distinct (f1 : TFile) (f2 : option TFile) : Prop :=
  match f2 with
  | Some f => path f1 <> path f
  | None => True
  end.

(** The states a modal goes through: it is opened once; if no second
    file was given, the search field exists, its value changes and one
    of the suggestions it shows is picked. Each handler runs to its end
    before the next one starts. *)
Inductive Reachable : State -> Prop :=
| reach_open (f1 : TFile) (f2 : option TFile) (vault : Vault) :
    distinct f1 f2 ->
    Reachable (onOpen vault (constructor f1 f2))
| reach_change (st : State) (markdownFiles : list TFile) (value : string) :
    Reachable st ->
    initialFile2Provided st = false ->
    Reachable (fst (onChange markdownFiles value st))
| reach_select (st : State) (markdownFiles : list TFile) (value : string)
    (file : TFile) (vault : Vault) :
    Reachable st ->
    initialFile2Provided st = false ->
    In file (snd (onChange markdownFiles value st)) ->
    Reachable (selectFile vault file st).

End WithLowerCase.

End Search.

(** ** The plugin: file menu, command and settings *)

Module Plugin.

Import DiffModal.

(** What a file menu is opened on: a folder, or a file with its
    extension. *)
Inductive TAbstractFile :=
| TFolder (folderPath : string)
| TFileOf (file : TFile) (extension : string).

(** What a click on a menu item does. *)
Inductive Action :=
| SelectForCompare (file : TFile)
| CompareWith (file : TFile).

Record MenuItem := mkItem {
  title : string;
  icon : string;
  onClick : Action
}.

(** The field [fileToCompare] of the plugin, the notices it has shown,
    and the modals it has opened, each as [onOpen] leaves it. *)
Record Plugin := mkPlugin {
  fileToCompare : option TFile;
  shownNotices : list string;
  openedModals : list State
}.

(** The handler of ["file-menu"]: the items it adds. *)
Definition fileMenu (p : Plugin) (target : TAbstractFile) : list MenuItem :=
  match target with
  | TFolder _ => []
  | TFileOf file extension =>
      if negb (String.eqb extension "md") then []
      else
        mkItem "Select for compare" "copy" (SelectForCompare file) ::
        match fileToCompare p with
        | Some first =>
            if negb (String.eqb (path first) (path file))
            then [mkItem ("Compare with: " ++ basename first) "diff"
                         (CompareWith file)]
            else []
        | None => []
        end
  end.

(** [new DiffModal(app, file1, file2).open()]. *)
Definition openModal (vault : Vault) (f1 : TFile) (f2 : option TFile)
    (p : Plugin) : Plugin :=
  mkPlugin (fileToCompare p) (shownNotices p)
           (openedModals p ++ [onOpen vault (constructor f1 f2)]).

(** The [onClick] handlers of the two items. *)
Definition click (vault : Vault) (a : Action) (p : Plugin) : Plugin :=
  match a with
  | SelectForCompare file =>
      mkPlugin (Some file)
               (shownNotices p ++
                [(basename file ++ " selected for comparison.")%string])
               (openedModals p)
  | CompareWith file =>
      match fileToCompare p with
      | Some first => openModal vault first (Some file) p
      | None =>
          mkPlugin (fileToCompare p)
                   (shownNotices p ++
                    ["Error: First file for comparison is not selected anymore."])
                   (openedModals p)
      end
  end.

Definition onunload (p : Plugin) : Plugin :=
  mkPlugin None (shownNotices p) (openedModals p).

(** [checkCallback] of the command "diff-current-file"; [activeView] is
    the active Markdown view, if there is one, with its file, if it has
    one. *)
Definition checkCallback (vault : Vault) (activeView : option (option TFile))
    (checking : bool) (p : Plugin) : bool * Plugin :=
  match activeView with
  | Some (Some file) =>
      (true, if negb checking then openModal vault file None p else p)
  | _ => (false, p)
  end.

(** The titles of the items of a menu. *)
Definition titles (items : list MenuItem) : list string := map title items.

Section Settings.

(** The values a stored setting can hold, with the strings among them. *)
Variable V : Type.
Variable ofString : string -> V.

(** An object, as its own properties in order, every key once. *)
Definition Obj : Type := list (string * V).

Fixpoint getProp (key : string) (o : Obj) : option V :=
  match o with
  | [] => None
  | (k, v) :: o' => if String.eqb key k then Some v else getProp key o'
  end.

(** [o[key] = v]. *)
Fixpoint setProp (key : string) (v : V) (o : Obj) : Obj :=
  match o with
  | [] => [(key, v)]
  | (k, v') :: o' =>
      if String.eqb key k then (k, v) :: o' else (k, v') :: setProp key v o'
  end.

(** [Object.assign(target, source)]; a null source is skipped. *)
Definition assign (target : Obj) (source : option Obj) : Obj :=
  match source with
  | None => target
  | Some props => fold_left (fun t kv => setProp (fst kv) (snd kv) t) props target
  end.

Definition DEFAULT_SETTINGS : Obj := [("mySetting", ofString "default")].

(** [Object.assign({}, DEFAULT_SETTINGS, await this.loadData())]. *)
Definition loadSettings (data : option Obj) : Obj :=
  assign (assign [] (Some DEFAULT_SETTINGS)) data.

End Settings.

(** [display?.(option) ?? option]. *)
Definition displayNameOf (display : option (string -> string))
    (option : string) : string :=
  match display with
  | Some d => d option
  | None => option
  end.

(** The loop of [addDropdowenSetting]: the options added to the dropdown,
    value and display name, and the set of display names seen. *)
Fixpoint addOptions (display : option (string -> string))
    (options : list string) (displayNames : list string)
    (dropdown : list (string * string)) : list (string * string) * list string :=
  match options with
  | [] => (dropdown, displayNames)
  | option :: options' =>
      let displayName := displayNameOf display option in
      if existsb (String.eqb displayName) displayNames
      then addOptions display options' displayNames dropdown
      else addOptions display options' (displayNames ++ [displayName])
                      (dropdown ++ [(option, displayName)])
  end.

(** The options of the dropdown built by [addDropdowenSetting]. *)
Definition dropdownOptions (display : option (string -> string))
    (options : list string) : list (string * string) :=
  fst (addOptions display options [] []).

End Plugin.

(** ** The modal that always takes two files *)

Module DiffModalV2.

Import Diff.

(** The fields of the class, whether [close] was called, and the notices
    and diff calls as for the other modal. *)
Record State := mkState {
  file1 : DiffModal.TFile;
  file2 : DiffModal.TFile;
  file2Content : string;
  file1Content : string;
  resultEl : list DiffModal.Node;
  closed : bool;
  notices : list string;
  diffCalls : list (string * string)
}.

Definition constructor (f1 f2 : DiffModal.TFile) : State :=
  {| file1 := f1;
     file2 := f2;
     file2Content := "";
     file1Content := "";
     resultEl := [];
     closed := false;
     notices := [];
     diffCalls := [] |}.

Definition setText (text : string) (st : State) : State :=
  mkState (file1 st) (file2 st) (file2Content st) (file1Content st)
          [DiffModal.TextNode text] (closed st) (notices st) (diffCalls st).

Definition updateDiffDisplay (st : State) : State :=
  if falsy (file1Content st) || falsy (file2Content st) then
    if falsy (file1Content st) || falsy (file2Content st)
    then setText "Waiting for file content..." st
    else setText "Ready for comparison." st
  else
    let diffResult := diffLines (file1Content st) (file2Content st) in
    let fragment := map (fun part => DiffModal.SpanNode (DiffModal.renderPart part))
                        diffResult in
    mkState (file1 st) (file2 st) (file2Content st) (file1Content st)
            ([] ++ fragment) (closed st) (notices st)
            (diffCalls st ++ [(file1Content st, file2Content st)]).

(** The [catch] block of [loadFilesContent]: a notice, and [this.close()]. *)
Definition loadFailed (message : option string) (st : State) : bool * State :=
  let mentionsFile1 :=
    match message with
    | Some m => includes m (DiffModal.basename (file1 st))
    | None => false
    end in
  let failedFile :=
    if mentionsFile1 then DiffModal.basename (file1 st)
    else if falsy (DiffModal.basename (file2 st)) then "unknown file"
         else DiffModal.basename (file2 st) in
  (false,
   mkState (file1 st) (file2 st) (file2Content st) (file1Content st)
           (resultEl st) true
           (notices st ++ [("Error reading content for " ++ failedFile)%string])
           (diffCalls st)).

Definition loadFilesContent (vault : DiffModal.Vault) (st : State) : bool * State :=
  match vault (file1 st) with
  | DiffModal.Throws message => loadFailed message st
  | DiffModal.Content c1 =>
      let st := mkState (file1 st) (file2 st) (file2Content st) c1
                        (resultEl st) (closed st) (notices st) (diffCalls st) in
      match vault (file2 st) with
      | DiffModal.Throws message => loadFailed message st
      | DiffModal.Content c2 =>
          (true, mkState (file1 st) (file2 st) c2 (file1Content st)
                         (resultEl st) (closed st) (notices st) (diffCalls st))
      end
  end.

Definition onOpen (vault : DiffModal.Vault) (st : State) : State :=
  let st := setText "Loading comparison..." st in
  let (success, st) := loadFilesContent vault st in
  if success then updateDiffDisplay st
  else setText "Error loading file content." st.

(** The state of the other modal with the same fields, the second file
    given at the start. *)
Definition toV1 (st : State) : DiffModal.State :=
  DiffModal.mkState (file1 st) (Some (file2 st)) (file2Content st)
                    (file1Content st) (resultEl st) true (notices st)
                    (diffCalls st).

End DiffModalV2.

(** ** Reading the display back *)

Module Display.

Import DiffModal.

(** A string without its first two code units. *)
Definition dropPrefix (s : string) : string :=
  match s with
  | String _ (String _ rest) => rest
  | _ => ""
  end.

(** What a line span stands for: its text behind the prefix, and a line
    feed where a [br] follows. *)
Definition shownLine (ls : LineSpan) : string :=
  dropPrefix (textContent ls) ++ (if br ls then NL else "").

(** The text a span stands for. *)
Definition shownText (sp : Span) : string :=
  join (map shownLine (lineSpans sp)).

(** The text the spans of one side stand for: all spans but the added
    ones for the first document, all but the removed ones for the
    second. *)
Definition shownSide (skip : string) (spans : list Span) : string :=
  join (map shownText
            (filter (fun sp => negb (String.eqb (cls sp) skip)) spans)).

End Display.

(** ** A pick, one await at a time *)

Module Picks.

Import DiffModal.

(** [selectFile] up to its first await: the file is selected, the notice
    raised, and [loadFilesContent] has asked for the first file. *)
Definition begin (file : TFile) (st : State) : State :=
  Notice ("Selected: " ++ basename file) (set_file2 (Some file) st).

(** [loadFilesContent] from the outcome of the first read to its next
    await or to its return: on the left the second file it now asks for,
    on the right the value it returns. *)
Definition file1Read (outcome : ReadResult) (st : State) : (TFile + bool) * State :=
  match outcome with
  | Throws message => (inr false, snd (loadFailed message st))
  | Content c1 =>
      let st := set_file1Content c1 st in
      match file2 st with
      | Some f2 => (inl f2, st)
      | None =>
          if initialFile2Provided st
          then (inr false, Notice "Internal error: File 2 missing." st)
          else (inr true, st)
      end
  end.

(** [loadFilesContent] from the outcome of the second read to its
    return. *)
Definition file2Read (outcome : ReadResult) (st : State) : bool * State :=
  match outcome with
  | Throws message => (false, snd (loadFailed message st))
  | Content c2 => (true, set_file2Content c2 st)
  end.

(** [selectFile] after [loadFilesContent] has returned. *)
Definition finish (success : bool) (st : State) : State :=
  if success then updateDiffDisplay st
  else updateDiffDisplay (set_file2Content "" (set_file2 None st)).

(** A pick that nothing interrupts. *)
Definition inTurn (vault : Vault) (file : TFile) (st : State) : State :=
  let st := begin file st in
  let (next, st) := file1Read (vault (file1 st)) st in
  match next with
  | inl f2 => let (success, st) := file2Read (vault f2) st in finish success st
  | inr success => finish success st
  end.

(** Two picks that overlap: [b] is picked and its call waits for the
    read of the second file; meanwhile [c] is picked and that call runs to
    its end; then the read the first call waits for lands. When the first
    call returns before a second read, the picks do not overlap. *)
Definition overlapped (vault : Vault) (b c : TFile) (st : State) : State :=
  let st := begin b st in
  let (next, st) := file1Read (vault (file1 st)) st in
  match next with
  | inl fb =>
      let st := inTurn vault c st in
      let (success, st) := file2Read (vault fb) st in
      finish success st
  | inr success => inTurn vault c (finish success st)
  end.

End Picks.

Import Diff DiffModal Spec.

Example split_ex1 : split ("a" ++ NL ++ "b") = ["a"; "b"].
Proof. reflexivity. Qed.
Example split_ex2 : split ("a" ++ NL) = ["a"; ""].
Proof. reflexivity. Qed.
Example split_ex3 : split "" = [""].
Proof. reflexivity. Qed.
Example splitKeep_ex : splitKeep ("a" ++ NL ++ NL ++ "b") = ["a"; NL; ""; NL; "b"].
Proof. reflexivity. Qed.
Example endsWith_ex : endsWith ("a" ++ NL) NL = true /\ endsWith "a" NL = false /\ endsWith "" NL = false.
Proof. repeat split; reflexivity. Qed.

(** ** Strings: splitting and joining *)

Lemma nl_eqb_NL (c : ascii) (s : string) :
  String.eqb (String c s) NL = Ascii.eqb c nl && falsy s.
Proof.
  unfold NL. simpl. destruct (Ascii.eqb c nl); simpl; [|reflexivity].
  destruct s; reflexivity.
Qed.

Lemma falsy_true (s : string) : falsy s = true <-> s = "".
Proof. destruct s; simpl; split; congruence. Qed.

Lemma falsy_false (s : string) : falsy s = false <-> s <> "".
Proof. destruct s; simpl; split; congruence. Qed.

Lemma falsy_eqb (s : string) : String.eqb s "" = falsy s.
Proof. destruct s; reflexivity. Qed.

Lemma append_assoc (a b c : string) :
  ((a ++ b) ++ c)%string = (a ++ (b ++ c))%string.
Proof. induction a; simpl; congruence. Qed.

Lemma join_app (l1 l2 : list string) : join (l1 ++ l2) = (join l1 ++ join l2)%string.
Proof.
  induction l1 as [|x l1 IH]; simpl; [reflexivity|].
  fold (join (l1 ++ l2)). fold (join l1).
  rewrite IH. symmetry. apply append_assoc.
Qed.

Lemma append_empty_r (s : string) : (s ++ "")%string = s.
Proof. induction s; simpl; congruence. Qed.

Lemma split_not_nil (s : string) : split s <> [].
Proof.
  induction s as [|c s IH]; simpl; [discriminate|].
  destruct (Ascii.eqb c nl); [discriminate|].
  destruct (split s); [contradiction|discriminate].
Qed.

Lemma splitKeep_not_nil (s : string) : splitKeep s <> [].
Proof.
  induction s as [|c s IH]; simpl; [discriminate|].
  destruct (Ascii.eqb c nl); [discriminate|].
  destruct (splitKeep s); [contradiction|discriminate].
Qed.

Lemma join_splitKeep (s : string) : join (splitKeep s) = s.
Proof.
  induction s as [|c s IH]; simpl; [reflexivity|].
  destruct (Ascii.eqb c nl) eqn:E.
  - apply Ascii.eqb_eq in E. subst c. simpl.
    fold (join (splitKeep s)). rewrite IH. reflexivity.
  - destruct (splitKeep s) as [|l ls] eqn:K.
    + now apply splitKeep_not_nil in K.
    + simpl in *. fold (join ls) in *. congruence.
Qed.

Lemma length_split (s : string) : List.length (split s) = S (countNL s).
Proof.
  induction s as [|c s IH]; simpl; [reflexivity|].
  destruct (Ascii.eqb c nl); simpl; [now rewrite IH|].
  destruct (split s); simpl in *; [discriminate|exact IH].
Qed.

Lemma lastIsEmpty_cons (x y : string) (l : list string) :
  lastIsEmpty (x :: y :: l) = lastIsEmpty (y :: l).
Proof. unfold lastIsEmpty. simpl. rewrite !Nat.sub_0_r. reflexivity. Qed.

Lemma lastIsEmpty_one (x : string) : lastIsEmpty [x] = falsy x.
Proof. unfold lastIsEmpty. simpl. apply falsy_eqb. Qed.

Lemma lastIsEmpty_snoc (l : list string) (x : string) :
  lastIsEmpty (l ++ [x]) = falsy x.
Proof.
  induction l as [|a l IH]; simpl; [apply lastIsEmpty_one|].
  destruct (l ++ [x]) eqn:E.
  - destruct l; discriminate.
  - rewrite lastIsEmpty_cons. exact IH.
Qed.

Lemma popEmptyLast_snoc (l : list string) (x : string) :
  popEmptyLast (l ++ [x]) = if falsy x then l else l ++ [x].
Proof.
  unfold popEmptyLast. rewrite lastIsEmpty_snoc.
  destruct (falsy x); [apply removelast_last|reflexivity].
Qed.

Lemma snoc_cases {A : Type} (l : list A) :
  l = [] \/ exists l' x, l = l' ++ [x].
Proof.
  destruct l as [|a l]; [now left|right].
  exists (removelast (a :: l)), (last (a :: l) a).
  apply app_removelast_last. discriminate.
Qed.

Lemma join_popEmptyLast (l : list string) : join (popEmptyLast l) = join l.
Proof.
  destruct (snoc_cases l) as [->|(l' & x & ->)]; [reflexivity|].
  rewrite popEmptyLast_snoc. destruct (falsy x) eqn:F; [|reflexivity].
  apply falsy_true in F. subst x. rewrite join_app. simpl.
  now rewrite append_empty_r.
Qed.

Lemma endsWith_NL_count (s : string) : endsWith s NL = true -> 0 < countNL s.
Proof.
  induction s as [|c s IH]; [discriminate|].
  cbn [endsWith countNL]. rewrite nl_eqb_NL.
  destruct (Ascii.eqb c nl); simpl; [lia|auto].
Qed.

(** The last piece of [s.split("\n")] is empty exactly when [s] is empty
    or ends in a line feed. *)
Lemma lastIsEmpty_split (s : string) :
  lastIsEmpty (split s) = falsy s || endsWith s NL.
Proof.
  induction s as [|c s IH]; [reflexivity|].
  cbn [split endsWith falsy]. rewrite nl_eqb_NL.
  destruct (Ascii.eqb c nl) eqn:E; cbn [andb orb].
  - destruct (split s) as [|l ls] eqn:K; [now apply split_not_nil in K|].
    rewrite lastIsEmpty_cons. exact IH.
  - pose proof (length_split s) as L.
    destruct (split s) as [|l [|l2 ls]] eqn:K; [now apply split_not_nil in K| |].
    + rewrite lastIsEmpty_one. simpl.
      destruct (endsWith s NL) eqn:W; [|reflexivity].
      apply endsWith_NL_count in W. simpl in L. lia.
    + rewrite lastIsEmpty_cons in *. rewrite IH.
      destruct s; [discriminate|reflexivity].
Qed.

Lemma split_app_NL (t : string) : split (t ++ NL) = split t ++ [""].
Proof.
  induction t as [|c t IH]; [reflexivity|].
  simpl. rewrite IH. destruct (Ascii.eqb c nl); [reflexivity|].
  destruct (split t) eqn:K; [now apply split_not_nil in K|reflexivity].
Qed.

Lemma endsWith_app_NL (t : string) : endsWith (t ++ NL) NL = true.
Proof.
  induction t as [|c t IH]; [reflexivity|].
  cbn [append endsWith]. rewrite IH. apply orb_true_r.
Qed.

Lemma endsWith_NL_inv (s : string) :
  endsWith s NL = true -> exists t, s = (t ++ NL)%string.
Proof.
  induction s as [|c s IH]; [discriminate|].
  cbn [endsWith]. rewrite nl_eqb_NL.
  intros H. apply orb_true_iff in H. destruct H as [H|H].
  - apply andb_true_iff in H. destruct H as [H1 H2].
    apply Ascii.eqb_eq in H1. apply falsy_true in H2. subst. now exists "".
  - destruct (IH H) as [t ->]. now exists (String c t).
Qed.

(** No piece of [s.split("\n")] holds a line feed. *)
Lemma split_no_NL (s l : string) : In l (split s) -> hasNL l = false.
Proof.
  revert l. induction s as [|c s IH]; simpl; intros l H.
  - destruct H as [<-|[]]. reflexivity.
  - destruct (Ascii.eqb c nl) eqn:E.
    + destruct H as [<-|H]; [reflexivity|auto].
    + destruct (split s) as [|x xs]; simpl in H.
      * destruct H as [<-|[]]. simpl. now rewrite E.
      * destruct H as [<-|H].
        -- simpl. rewrite E. apply IH. now left.
        -- apply IH. now right.
Qed.

Lemma hasNL_app (a b : string) : hasNL (a ++ b) = hasNL a || hasNL b.
Proof.
  induction a as [|c a IH]; simpl; [reflexivity|].
  rewrite IH. apply orb_assoc.
Qed.

Lemma countNL_hasNL (s : string) : hasNL s = false <-> countNL s = 0.
Proof.
  induction s as [|c s IH]; simpl; [tauto|].
  destruct (Ascii.eqb c nl); simpl; [split; [discriminate|lia]|exact IH].
Qed.


(** ** The edit script and its parts *)

Lemma diffTokens_nil_r (old : list string) :
  diffTokens old [] = map (pair Del) old.
Proof. destruct old; reflexivity. Qed.

Lemma diffTokens_cons (x y : string) (old new : list string) :
  diffTokens (x :: old) (y :: new) =
  if String.eqb x y then (Keep, x) :: diffTokens old new
  else shorter ((Del, x) :: diffTokens old (y :: new))
               ((Ins, y) :: diffTokens (x :: old) new).
Proof. reflexivity. Qed.

Lemma shorter_cases (a b : list Edit) : shorter a b = a \/ shorter a b = b.
Proof. unfold shorter. destruct (Nat.leb _ _); auto. Qed.

Lemma oldTokens_Ins (l : list string) : oldTokens (map (pair Ins) l) = [].
Proof. induction l; simpl; auto. Qed.

Lemma oldTokens_Del (l : list string) : oldTokens (map (pair Del) l) = l.
Proof.
  induction l as [|x l IH]; [reflexivity|].
  unfold oldTokens in *. simpl. f_equal. exact IH.
Qed.

Lemma newTokens_Ins (l : list string) : newTokens (map (pair Ins) l) = l.
Proof.
  induction l as [|x l IH]; [reflexivity|].
  unfold newTokens in *. simpl. f_equal. exact IH.
Qed.

Lemma newTokens_Del (l : list string) : newTokens (map (pair Del) l) = [].
Proof. induction l; simpl; auto. Qed.

(** The kept and deleted tokens of the script are the old tokens. *)
Lemma diffTokens_old (old new : list string) :
  oldTokens (diffTokens old new) = old.
Proof.
  revert new. induction old as [|x old IHo]; intros new.
  - apply oldTokens_Ins.
  - induction new as [|y new IHn].
    + rewrite diffTokens_nil_r. apply oldTokens_Del.
    + rewrite diffTokens_cons. destruct (String.eqb x y).
      * unfold oldTokens. simpl. f_equal. apply IHo.
      * destruct (shorter_cases ((Del, x) :: diffTokens old (y :: new))
                    ((Ins, y) :: diffTokens (x :: old) new)) as [-> | ->].
        -- unfold oldTokens. simpl. f_equal. apply IHo.
        -- exact IHn.
Qed.

(** The kept and inserted tokens of the script are the new tokens. *)
Lemma diffTokens_new (old new : list string) :
  newTokens (diffTokens old new) = new.
Proof.
  revert new. induction old as [|x old IHo]; intros new.
  - apply newTokens_Ins.
  - induction new as [|y new IHn].
    + rewrite diffTokens_nil_r. apply newTokens_Del.
    + rewrite diffTokens_cons. destruct (String.eqb x y) eqn:E.
      * apply String.eqb_eq in E. subst y.
        unfold newTokens. simpl. f_equal. apply IHo.
      * destruct (shorter_cases ((Del, x) :: diffTokens old (y :: new))
                    ((Ins, y) :: diffTokens (x :: old) new)) as [-> | ->].
        -- apply IHo.
        -- unfold newTokens. simpl. f_equal. exact IHn.
Qed.

Lemma diffTokens_same (tokens : list string) :
  diffTokens tokens tokens = map (pair Keep) tokens.
Proof.
  induction tokens as [|x l IH]; [reflexivity|].
  rewrite diffTokens_cons, String.eqb_refl, IH. reflexivity.
Qed.

Lemma changeOf_oneFlag (op : Op) (t : string) : oneFlag (changeOf op t).
Proof. destruct op; reflexivity. Qed.

Lemma opOf_changeOf (op : Op) (t : string) : opOf (changeOf op t) = op.
Proof. destruct op; reflexivity. Qed.

Lemma buildValues_oneFlag (edits : list Edit) :
  Forall oneFlag (buildValues edits).
Proof.
  induction edits as [|[op t] es IH]; simpl; [constructor|].
  destruct (buildValues es) as [|c cs].
  - repeat constructor. apply changeOf_oneFlag.
  - inversion IH; subst. destruct (Op_eqb op (opOf c));
      repeat constructor; auto using changeOf_oneFlag.
Qed.

Lemma Op_eqb_eq (a b : Op) : Op_eqb a b = true <-> a = b.
Proof. destruct a, b; simpl; split; congruence. Qed.

Lemma oldText_cons (c : Change) (cs : list Change) :
  oldText (c :: cs) =
  if added c then oldText cs else (value c ++ oldText cs)%string.
Proof. unfold oldText. simpl. destruct (added c); reflexivity. Qed.

Lemma newText_cons (c : Change) (cs : list Change) :
  newText (c :: cs) =
  if removed c then newText cs else (value c ++ newText cs)%string.
Proof. unfold newText. simpl. destruct (removed c); reflexivity. Qed.

Lemma oldTokens_cons (op : Op) (t : string) (es : list Edit) :
  oldTokens ((op, t) :: es) =
  if Op_eqb op Ins then oldTokens es else t :: oldTokens es.
Proof. unfold oldTokens. simpl. destruct (Op_eqb op Ins); reflexivity. Qed.

Lemma newTokens_cons (op : Op) (t : string) (es : list Edit) :
  newTokens ((op, t) :: es) =
  if Op_eqb op Del then newTokens es else t :: newTokens es.
Proof. unfold newTokens. simpl. destruct (Op_eqb op Del); reflexivity. Qed.

(** Joining the unchanged and removed parts gives the old tokens joined. *)
Lemma buildValues_oldText (edits : list Edit) :
  oldText (buildValues edits) = join (oldTokens edits).
Proof.
  induction edits as [|[op t] es IH]; [reflexivity|].
  cbn [buildValues]. rewrite oldTokens_cons.
  destruct (buildValues es) as [|c cs].
  - rewrite oldText_cons. cbn [changeOf added value].
    destruct (Op_eqb op Ins); [exact IH|]. simpl. f_equal. exact IH.
  - rewrite oldText_cons in IH.
    destruct (Op_eqb op (opOf c)) eqn:E.
    + apply Op_eqb_eq in E. subst op. rewrite oldText_cons.
      cbn [changeOf added value]. unfold opOf in *.
      destruct (added c); [exact IH|].
      destruct (removed c); simpl; rewrite append_assoc; f_equal; exact IH.
    + rewrite oldText_cons. cbn [changeOf added value].
      rewrite oldText_cons.
      destruct (Op_eqb op Ins); [exact IH|]. simpl. f_equal. exact IH.
Qed.

(** Joining the unchanged and added parts gives the new tokens joined. *)
Lemma buildValues_newText (edits : list Edit) :
  newText (buildValues edits) = join (newTokens edits).
Proof.
  induction edits as [|[op t] es IH]; [reflexivity|].
  pose proof (buildValues_oneFlag es) as W.
  cbn [buildValues]. rewrite newTokens_cons.
  destruct (buildValues es) as [|c cs].
  - rewrite newText_cons. cbn [changeOf removed value].
    destruct (Op_eqb op Del); [exact IH|]. simpl. f_equal. exact IH.
  - rewrite newText_cons in IH. inversion W as [|? ? Wc _]; subst.
    unfold oneFlag in Wc.
    destruct (Op_eqb op (opOf c)) eqn:E.
    + apply Op_eqb_eq in E. subst op. rewrite newText_cons.
      cbn [changeOf removed value]. unfold opOf in *.
      destruct (added c), (removed c); try discriminate; simpl;
        try rewrite append_assoc; try f_equal; exact IH.
    + rewrite newText_cons. cbn [changeOf removed value].
      rewrite newText_cons.
      destruct (Op_eqb op Del); [exact IH|]. simpl. f_equal. exact IH.
Qed.

Lemma join_removeEmpty (l : list string) : join (removeEmpty l) = join l.
Proof.
  induction l as [|x l IH]; [reflexivity|].
  simpl. destruct x; simpl; [exact IH|].
  fold (join (removeEmpty l)). fold (join l). now rewrite IH.
Qed.

(** The tokens of a text, joined, are the text. *)
Lemma join_tokens (text : string) : join (removeEmpty (tokenize text)) = text.
Proof.
  unfold tokenize.
  now rewrite join_removeEmpty, join_popEmptyLast, join_splitKeep.
Qed.

Lemma tokens_nil (text : string) :
  removeEmpty (tokenize text) = [] <-> text = "".
Proof.
  split; intros H.
  - rewrite <- (join_tokens text), H. reflexivity.
  - subst. reflexivity.
Qed.

Lemma removeEmpty_nonempty (l : list string) :
  Forall (fun t => t <> "") (removeEmpty l).
Proof.
  apply Forall_forall. intros t H. apply filter_In in H.
  destruct H as [_ H]. destruct t; [discriminate|discriminate].
Qed.

Lemma buildValues_keep (tokens : list string) :
  tokens <> [] ->
  buildValues (map (pair Keep) tokens) = [changeOf Keep (join tokens)].
Proof.
  induction tokens as [|x l IH]; [congruence|intros _].
  destruct l as [|y l].
  - simpl. now rewrite append_empty_r.
  - cbn [map buildValues] in *. rewrite IH by discriminate.
    rewrite opOf_changeOf. reflexivity.
Qed.

(** A text compared with itself is one unchanged part, if it is not empty. *)
Lemma diffLines_same (text : string) :
  text <> "" -> diffLines text text = [mkChange false false text].
Proof.
  intros H. unfold diffLines. rewrite diffTokens_same.
  rewrite buildValues_keep by (rewrite tokens_nil; exact H).
  rewrite join_tokens. reflexivity.
Qed.

Lemma app_nonempty (a b : string) : a <> "" -> (a ++ b)%string <> "".
Proof. destruct a; [congruence|discriminate]. Qed.

Lemma buildValues_nonempty (edits : list Edit) :
  Forall (fun e => snd e <> "") edits ->
  Forall (fun c => value c <> "") (buildValues edits).
Proof.
  induction edits as [|[op t] es IH]; intros H; [constructor|].
  inversion H as [|? ? Ht Hes]; subst. specialize (IH Hes). simpl in Ht.
  cbn [buildValues]. destruct (buildValues es) as [|c cs].
  - repeat constructor. exact Ht.
  - inversion IH; subst. destruct (Op_eqb op (opOf c)).
    + constructor; [now apply app_nonempty|assumption].
    + repeat constructor; assumption.
Qed.

Lemma diffTokens_tokens (old new : list string) (e : Edit) :
  In e (diffTokens old new) -> In (snd e) old \/ In (snd e) new.
Proof.
  intros H. destruct e as [op t]. destruct (Op_eqb op Ins) eqn:E.
  - right. rewrite <- (diffTokens_new old new). unfold newTokens.
    apply in_map_iff. exists (op, t). split; [reflexivity|].
    apply filter_In. split; [exact H|]. destruct op; try discriminate; reflexivity.
  - left. rewrite <- (diffTokens_old old new). unfold oldTokens.
    apply in_map_iff. exists (op, t). split; [reflexivity|].
    apply filter_In. split; [exact H|]. simpl. now rewrite E.
Qed.

(** Every part of a line diff has a text that is not empty. *)
Lemma diffLines_nonempty (a b : string) (part : Change) :
  In part (diffLines a b) -> value part <> "".
Proof.
  revert part. apply Forall_forall. apply buildValues_nonempty.
  apply Forall_forall. intros e H. apply diffTokens_tokens in H.
  pose proof (removeEmpty_nonempty (tokenize a)) as Ha.
  pose proof (removeEmpty_nonempty (tokenize b)) as Hb.
  rewrite Forall_forall in Ha, Hb. destruct H; auto.
Qed.

Lemma diffLines_oneFlag (a b : string) (part : Change) :
  In part (diffLines a b) -> oneFlag part.
Proof.
  revert part. apply Forall_forall. apply buildValues_oneFlag.
Qed.

Lemma diffLines_oldText (a b : string) : oldText (diffLines a b) = a.
Proof.
  unfold diffLines. now rewrite buildValues_oldText, diffTokens_old, join_tokens.
Qed.

Lemma diffLines_newText (a b : string) : newText (diffLines a b) = b.
Proof.
  unfold diffLines. now rewrite buildValues_newText, diffTokens_new, join_tokens.
Qed.


(** ** The span of one part *)

Lemma length_forEachFrom {A B : Type} (f : A -> nat -> B) (k : nat) (l : list A) :
  List.length (forEachFrom f k l) = List.length l.
Proof. revert k. induction l; intros k; simpl; auto. Qed.

Lemma nth_error_forEachFrom {A B : Type} (f : A -> nat -> B) (l : list A) :
  forall k i,
  nth_error (forEachFrom f k l) i =
  option_map (fun x => f x (k + i)) (nth_error l i).
Proof.
  induction l as [|x l IH]; intros k [|i]; simpl; try reflexivity.
  - now rewrite Nat.add_0_r.
  - rewrite IH. now rewrite Nat.add_succ_r.
Qed.

Lemma in_forEachFrom {A B : Type} (f : A -> nat -> B) (l : list A) :
  forall k y, In y (forEachFrom f k l) -> exists x i, In x l /\ y = f x i.
Proof.
  induction l as [|x l IH]; intros k y H; simpl in H; [contradiction|].
  destruct H as [<-|H].
  - exists x, k. split; [now left|reflexivity].
  - destruct (IH _ _ H) as (x' & i & Hin & ->).
    exists x', i. split; [now right|reflexivity].
Qed.

Lemma map_forEachFrom {A B C : Type} (g : B -> C) (h : A -> C)
    (f : A -> nat -> B) (l : list A) :
  (forall x i, g (f x i) = h x) ->
  forall k, map g (forEachFrom f k l) = map h l.
Proof.
  intros H. induction l as [|x l IH]; intros k; simpl; [reflexivity|].
  now rewrite H, IH.
Qed.

Lemma in_popEmptyLast (l : list string) (x : string) :
  In x (popEmptyLast l) -> In x l.
Proof.
  destruct (snoc_cases l) as [->|(l' & y & ->)]; [auto|].
  rewrite popEmptyLast_snoc. destruct (falsy y); [|auto].
  intros H. apply in_or_app. now left.
Qed.

Lemma popEmptyLast_cons (x y : string) (l : list string) :
  popEmptyLast (x :: y :: l) = x :: popEmptyLast (y :: l).
Proof.
  unfold popEmptyLast. rewrite lastIsEmpty_cons.
  destruct (lastIsEmpty (y :: l)); reflexivity.
Qed.

(** The lines kept of a text are its pieces, without the last piece when
    the text is empty or ends in a line feed. *)
Lemma length_popEmptyLast_split (text : string) :
  List.length (popEmptyLast (split text)) = lineCount text.
Proof.
  unfold lineCount, popEmptyLast. rewrite lastIsEmpty_split.
  pose proof (length_split text) as L.
  destruct (falsy text || endsWith text NL).
  - destruct (snoc_cases (split text)) as [E|(l' & x & E)].
    + now apply split_not_nil in E.
    + rewrite E in *. rewrite removelast_last.
      rewrite length_app in L. simpl in L. lia.
  - lia.
Qed.

(** Splitting and dropping a final empty piece gives the lines of the
    text as read off the text. *)
Lemma popEmptyLast_split_textLines (text : string) :
  popEmptyLast (split text) = textLines text.
Proof.
  induction text as [|c s IH]; [reflexivity|].
  cbn [split textLines]. destruct (Ascii.eqb c nl).
  - destruct (split s) as [|l ls] eqn:K; [now apply split_not_nil in K|].
    rewrite popEmptyLast_cons. now rewrite IH.
  - destruct (split s) as [|l [|l2 ls]] eqn:K; [now apply split_not_nil in K| |].
    + rewrite <- IH. unfold popEmptyLast. rewrite !lastIsEmpty_one.
      destruct l; reflexivity.
    + rewrite popEmptyLast_cons. rewrite <- IH. rewrite popEmptyLast_cons.
      reflexivity.
Qed.

Lemma linesOf_terminated (part : Change) (t : string) :
  value part = (t ++ NL)%string -> linesOf part = split t.
Proof.
  intros E. unfold linesOf. rewrite E, split_app_NL.
  now rewrite popEmptyLast_snoc.
Qed.

Lemma linesOf_unterminated (part : Change) :
  value part <> "" -> endsWith (value part) NL = false ->
  linesOf part = split (value part).
Proof.
  intros N E. unfold linesOf, popEmptyLast.
  rewrite lastIsEmpty_split, E. apply falsy_false in N. now rewrite N.
Qed.

Lemma textContent_renderPart (part : Change) :
  map textContent (lineSpans (renderPart part)) =
  map (append (prefixOf part)) (linesOf part).
Proof.
  unfold renderPart, forEach. cbn [lineSpans].
  apply map_forEachFrom. reflexivity.
Qed.

Lemma prefixOf_no_NL (part : Change) : hasNL (prefixOf part) = false.
Proof. unfold prefixOf. destruct (added part), (removed part); reflexivity. Qed.


(** ** Properties of the diff display *)

(** C1. For any two texts, the parts of the line diff give both texts
    back: the unchanged and removed parts, joined in order, are the first
    text, and the unchanged and added parts, joined in order, are the
    second. *)
Theorem diff_reconstructs_both_texts (a b : string) :
  oldText (diffLines a b) = a /\ newText (diffLines a b) = b.
Proof. split; [apply diffLines_oldText|apply diffLines_newText]. Qed.

(** C3. For a part of a diff, whose text is not empty, the texts of its
    line spans are the pieces of [value.split("\n")] without a final
    empty piece, each behind the prefix; that final empty piece is there
    exactly when the text ends in a line feed, and then the lines are the
    pieces of the text before that line feed, so the terminating line feed
    adds no empty line; otherwise every piece is a line. *)
Theorem part_lines_drop_final_empty (part : Change) :
  value part <> "" ->
  map textContent (lineSpans (renderPart part)) =
    map (append (prefixOf part)) (popEmptyLast (split (value part))) /\
  (lastIsEmpty (split (value part)) = true <->
   endsWith (value part) NL = true) /\
  (forall t, value part = (t ++ NL)%string ->
     popEmptyLast (split (value part)) = split t) /\
  (endsWith (value part) NL = false ->
     popEmptyLast (split (value part)) = split (value part)).
Proof.
  intros N. split; [apply textContent_renderPart|]. split; [|split].
  - rewrite lastIsEmpty_split. apply falsy_false in N. now rewrite N.
  - intros t E. now apply linesOf_terminated.
  - intros E. now apply linesOf_unterminated.
Qed.

Lemma part_lines_drop_final_empty_witness :
  let part := mkChange true false ("x" ++ NL ++ "y" ++ NL) in
  map textContent (lineSpans (renderPart part)) = ["+ x"; "+ y"] /\
  popEmptyLast (split (value part)) = split ("x" ++ NL ++ "y").
Proof.
  intros part.
  destruct (part_lines_drop_final_empty part) as (H1 & _ & H3 & _);
    [discriminate|].
  split; [exact H1|]. apply H3. reflexivity.
Defined.

(** C4. The line span at [index] of a part shows the line at [index]
    behind the prefix of the part: ["- "] for a removed part, ["+ "] for an
    added one, two spaces for an unchanged one. It is followed by a [br]
    exactly when it is not the last line of the part or the text of the
    part ends in a line feed. *)
Theorem line_prefix_and_break (part : Change) (index : nat) (ls : LineSpan) :
  nth_error (lineSpans (renderPart part)) index = Some ls ->
  exists line,
    nth_error (linesOf part) index = Some line /\
    (removed part = true -> textContent ls = ("- " ++ line)%string) /\
    (removed part = false -> added part = true ->
       textContent ls = ("+ " ++ line)%string) /\
    (removed part = false -> added part = false ->
       textContent ls = ("  " ++ line)%string) /\
    (br ls = true <->
       S index <> List.length (linesOf part) \/
       endsWith (value part) NL = true).
Proof.
  unfold renderPart, forEach. cbn [lineSpans].
  rewrite nth_error_forEachFrom. intros H.
  destruct (nth_error (linesOf part) index) as [line|] eqn:E; [|discriminate].
  injection H as <-. exists line. split; [reflexivity|].
  cbn [renderLine textContent br Nat.add]. unfold prefixOf.
  repeat split.
  - now intros ->.
  - now intros -> ->.
  - now intros -> ->.
  - intros B. apply orb_true_iff in B. destruct B as [B|B]; [left|now right].
    apply Nat.ltb_lt in B. lia.
  - intros B. apply orb_true_iff. destruct B as [B|B]; [left|now right].
    apply Nat.ltb_lt. assert (index < List.length (linesOf part))
      by (apply nth_error_Some; congruence). lia.
Qed.

Lemma line_prefix_and_break_witness :
  exists line,
    nth_error (linesOf (mkChange false true ("p" ++ NL ++ "q"))) 1 = Some line /\
    textContent (mkLineSpan "- q" false) = ("- " ++ line)%string.
Proof.
  destruct (line_prefix_and_break (mkChange false true ("p" ++ NL ++ "q")) 1
              (mkLineSpan "- q" false)) as (line & H1 & H2 & _);
    [reflexivity|].
  exists line. split; [exact H1|]. apply H2. reflexivity.
Defined.

(** C10. No piece of [value.split("\n")] holds a line feed, so the text
    of a line span, the prefix followed by one piece, never holds one. *)
Theorem line_text_has_no_line_feed (part : Change) (ls : LineSpan) :
  In ls (lineSpans (renderPart part)) ->
  hasNL (textContent ls) = false /\
  (forall piece, In piece (split (value part)) -> hasNL piece = false).
Proof.
  intros H. split; [|intros piece; apply split_no_NL].
  unfold renderPart, forEach in H. cbn [lineSpans] in H.
  apply in_forEachFrom in H. destruct H as (line & i & Hin & ->).
  cbn [renderLine textContent]. rewrite hasNL_app, prefixOf_no_NL.
  apply in_popEmptyLast in Hin. now apply split_no_NL in Hin.
Qed.

Lemma line_text_has_no_line_feed_witness :
  hasNL (textContent (mkLineSpan "  y" true)) = false.
Proof.
  destruct (line_text_has_no_line_feed
              (mkChange false false ("x" ++ NL ++ "y" ++ NL))
              (mkLineSpan "  y" true)) as [H _];
    [right; left; reflexivity|exact H].
Defined.

(** What [updateDiffDisplay] leaves in the result area: one text while
    the guard holds, the spans of the diff otherwise. *)
Lemma updateDiffDisplay_resultEl (st : State) :
  resultEl (updateDiffDisplay st) =
  if notReady st then
    [TextNode (if selected st then "Waiting for file content..."
               else "Select a file to compare against.")]
  else map SpanNode (renderDiff (file1Content st) (file2Content st)).
Proof.
  destruct st as [f1 [f2|] c2 c1 r i n d];
    unfold updateDiffDisplay, notReady, selected; cbn;
    destruct c1, c2; reflexivity.
Qed.

Lemma updateDiffDisplay_diffCalls (st : State) :
  diffCalls (updateDiffDisplay st) =
  diffCalls st ++
  (if notReady st then [] else [(file1Content st, file2Content st)]).
Proof.
  destruct st as [f1 [f2|] c2 c1 r i n d];
    unfold updateDiffDisplay, notReady; cbn;
    destruct c1, c2; cbn; now rewrite ?app_nil_r.
Qed.

Lemma updateDiffDisplay_keeps (st : State) :
  file1 (updateDiffDisplay st) = file1 st /\
  file2 (updateDiffDisplay st) = file2 st /\
  file1Content (updateDiffDisplay st) = file1Content st /\
  file2Content (updateDiffDisplay st) = file2Content st /\
  notices (updateDiffDisplay st) = notices st.
Proof.
  destruct st as [f1 [f2|] c2 c1 r i n d];
    unfold updateDiffDisplay, notReady; cbn;
    destruct c1, c2; cbn; repeat split.
Qed.

Lemma notReady_empty (st : State) :
  file1Content st = "" \/ file2Content st = "" -> notReady st = true.
Proof.
  unfold notReady. intros [-> | ->]; cbn; now rewrite ?orb_true_r.
Qed.

Lemma displayedLines_text (st : State) (text : string) :
  resultEl st = [TextNode text] -> displayedLines st = [].
Proof. unfold displayedLines. now intros ->. Qed.

(** C5. With two empty texts there is no part and no line: the diff of
    the two is empty, so is its rendering, and [updateDiffDisplay] shows no
    line span, runs no diff and raises no notice. For any state at all,
    [updateDiffDisplay] ends with one text or with the spans of the diff in
    the result area, and without a notice. *)
Theorem empty_texts_render_nothing (f1 : TFile) (f2 : option TFile)
    (r : list Node) (i : bool) (n : list string) (d : list (string * string)) :
  diffLines "" "" = [] /\
  renderDiff "" "" = [] /\
  (let st := updateDiffDisplay (mkState f1 f2 "" "" r i n d) in
   displayedLines st = [] /\ diffCalls st = d /\ notices st = n) /\
  (forall st : State,
     ((exists text, resultEl (updateDiffDisplay st) = [TextNode text]) \/
      resultEl (updateDiffDisplay st) =
        map SpanNode (renderDiff (file1Content st) (file2Content st))) /\
     notices (updateDiffDisplay st) = notices st).
Proof.
  split; [reflexivity|]. split; [reflexivity|]. split.
  - destruct f2; cbn; auto.
  - intros st. split; [|apply updateDiffDisplay_keeps].
    rewrite updateDiffDisplay_resultEl.
    destruct (notReady st); [left; eauto|now right].
Qed.

(** C6, as stated, fails: the display of ["a \n"] against ["a\n"] has an
    unchanged line, the line feed that both texts share. *)
Lemma whitespace_change_has_unchanged_line :
  ~ changedOnly (renderDiff ("a " ++ NL) ("a" ++ NL)).
Proof.
  intros (_ & _ & H).
  specialize (H (mkSpan "diff-unchanged" [mkLineSpan "  " true])).
  assert (In (mkSpan "diff-unchanged" [mkLineSpan "  " true])
             (renderDiff ("a " ++ NL) ("a" ++ NL))) as Hin
    by (right; right; left; reflexivity).
  specialize (H Hin eq_refl). discriminate.
Qed.

(** C6, amended. The comparison is sensitive to white space: for ["a \n"]
    against ["a\n"] the display is a removed line ["a "], an added line
    ["a"], neither followed by a break, and then one unchanged line with an
    empty text and a break, for the line feed the two texts share; no
    unchanged line shows ["a "] or ["a"]. *)
Theorem whitespace_change_display :
  diffLines ("a " ++ NL) ("a" ++ NL) =
    [mkChange false true "a "; mkChange true false "a"; mkChange false false NL] /\
  renderDiff ("a " ++ NL) ("a" ++ NL) =
    [mkSpan "diff-removed" [mkLineSpan "- a " false];
     mkSpan "diff-added" [mkLineSpan "+ a" false];
     mkSpan "diff-unchanged" [mkLineSpan "  " true]].
Proof. split; reflexivity. Qed.

(** *** Single lines *)

Lemma splitKeep_line (x : string) :
  hasNL x = false -> splitKeep (x ++ NL) = [x; NL; ""].
Proof.
  induction x as [|c x IH]; [reflexivity|].
  cbn [hasNL append splitKeep]. intros H. apply orb_false_iff in H.
  destruct H as [-> H]. now rewrite (IH H).
Qed.

Lemma split_line (x : string) : hasNL x = false -> split x = [x].
Proof.
  induction x as [|c x IH]; [reflexivity|].
  cbn [hasNL split]. intros H. apply orb_false_iff in H.
  destruct H as [-> H]. now rewrite (IH H).
Qed.

Lemma endsWith_NL_hasNL (x : string) : hasNL x = false -> endsWith x NL = false.
Proof.
  intros H. destruct (endsWith x NL) eqn:E; [|reflexivity].
  apply endsWith_NL_count in E. apply countNL_hasNL in H. lia.
Qed.

Lemma tokens_line (x : string) :
  hasNL x = false -> x <> "" -> removeEmpty (tokenize (x ++ NL)) = [x; NL].
Proof.
  intros H N. unfold tokenize. rewrite (splitKeep_line x H).
  change [x; NL; ""] with ([x; NL] ++ [""]). rewrite popEmptyLast_snoc.
  cbn. apply falsy_false in N. now rewrite N.
Qed.

Lemma renderPart_line (a r : bool) (x : string) :
  hasNL x = false -> x <> "" ->
  renderPart (mkChange a r x) =
  mkSpan (clsOf (mkChange a r x))
         [mkLineSpan (prefixOf (mkChange a r x) ++ x) false].
Proof.
  intros H N. unfold renderPart, linesOf, popEmptyLast. cbn [value].
  rewrite (split_line x H), lastIsEmpty_one.
  apply falsy_false in N. rewrite N. unfold forEach, renderLine.
  cbn [forEachFrom value]. now rewrite (endsWith_NL_hasNL x H).
Qed.

(** Any change within one line shows the same way, a trailing space
    being one case of it: two different lines, each ended by a line feed,
    give a removed line, an added line and the shared line feed. *)
Lemma changed_line_display (x y : string) :
  hasNL x = false -> hasNL y = false -> x <> "" -> y <> "" -> x <> y ->
  renderDiff (x ++ NL) (y ++ NL) =
    [mkSpan "diff-removed" [mkLineSpan ("- " ++ x) false];
     mkSpan "diff-added" [mkLineSpan ("+ " ++ y) false];
     mkSpan "diff-unchanged" [mkLineSpan "  " true]].
Proof.
  intros Hx Hy Nx Ny D.
  assert (String.eqb x NL = false) as XN
    by (apply String.eqb_neq; intros ->; discriminate).
  assert (String.eqb NL y = false) as NY
    by (apply String.eqb_neq; intros <-; discriminate).
  apply String.eqb_neq in D.
  unfold renderDiff, diffLines.
  rewrite (tokens_line x Hx Nx), (tokens_line y Hy Ny).
  rewrite diffTokens_cons, D.
  rewrite (diffTokens_cons NL y), NY, (diffTokens_cons x NL), XN.
  cbn [diffTokens map shorter List.length Nat.leb String.eqb].
  rewrite !String.eqb_refl. cbn [shorter List.length Nat.leb].
  cbn [buildValues Op_eqb opOf changeOf added removed value map].
  unfold changeOf. cbn [Op_eqb].
  rewrite (renderPart_line false true x Hx Nx).
  rewrite (renderPart_line true false y Hy Ny).
  reflexivity.
Qed.

(** C7. A text rendered against itself gives only unchanged spans, whose
    lines are the lines of the text, each behind two spaces, as many as
    the text has lines. *)
Theorem same_text_only_unchanged (a : string) :
  Forall (fun sp => cls sp = "diff-unchanged") (renderDiff a a) /\
  map textContent (flat_map lineSpans (renderDiff a a)) =
    map (append "  ") (textLines a) /\
  List.length (flat_map lineSpans (renderDiff a a)) = lineCount a.
Proof.
  destruct (String.eqb_spec a "") as [->|N].
  - repeat split. constructor.
  - unfold renderDiff. rewrite (diffLines_same a N).
    cbn [map flat_map]. rewrite app_nil_r.
    pose proof (textContent_renderPart (mkChange false false a)) as T.
    unfold linesOf in T. cbn [value] in T.
    split; [repeat constructor|]. split.
    + rewrite T, popEmptyLast_split_textLines. reflexivity.
    + rewrite <- (length_map textContent), T, length_map.
      apply length_popEmptyLast_split.
Qed.

(** C9. What [updateDiffDisplay] shows depends on the two contents and on
    whether a second file is selected, and on nothing else: two states
    that agree on these end with the same result area, whatever was shown
    before, and updating a second time changes nothing. *)
Theorem display_depends_on_inputs_only (st1 st2 : State) :
  selected st1 = selected st2 ->
  file1Content st1 = file1Content st2 ->
  file2Content st1 = file2Content st2 ->
  resultEl (updateDiffDisplay st1) = resultEl (updateDiffDisplay st2) /\
  resultEl (updateDiffDisplay (updateDiffDisplay st1)) =
    resultEl (updateDiffDisplay st1).
Proof.
  intros S C1 C2.
  assert (forall a b, selected a = selected b ->
            file1Content a = file1Content b ->
            file2Content a = file2Content b ->
            resultEl (updateDiffDisplay a) = resultEl (updateDiffDisplay b)) as D.
  { intros a b Hs H1 H2. rewrite !updateDiffDisplay_resultEl.
    unfold notReady, selected in *. rewrite H1, H2.
    destruct (file2 a), (file2 b); try discriminate; reflexivity. }
  split; [now apply D|].
  destruct (updateDiffDisplay_keeps st1) as (_ & K2 & K3 & K4 & _).
  apply D; [unfold selected; now rewrite K2|exact K3|exact K4].
Qed.

Lemma display_depends_on_inputs_only_witness :
  let f1 := mkTFile "a.md" "a" in
  let f2 := mkTFile "b.md" "b" in
  let st1 := mkState f1 (Some f2) "y" "x" [] true [] [] in
  let st2 := mkState f1 (Some f1) "y" "x" [TextNode "old"] false ["n"] [("p", "q")] in
  resultEl (updateDiffDisplay st1) = resultEl (updateDiffDisplay st2).
Proof.
  intros f1 f2 st1 st2.
  destruct (display_depends_on_inputs_only st1 st2) as [H _];
    [reflexivity|reflexivity|reflexivity|exact H].
Defined.

(** ** Loading the two files *)

Section Loading.

Variable vault : Vault.

Lemma loadFailed_spec (message : option string) (st : State) :
  exists failedFile,
    loadFailed message st =
    (false, Notice ("Error reading content for " ++ failedFile) st).
Proof. unfold loadFailed. eauto. Qed.

(** A load that fails has raised one notice and has run no diff. *)
Lemma loadFilesContent_false (st st' : State) :
  loadFilesContent vault st = (false, st') ->
  (exists text, notices st' = notices st ++ [text]) /\
  diffCalls st' = diffCalls st.
Proof.
  unfold loadFilesContent, loadFailed.
  destruct (vault (file1 st)) as [c1|m1].
  - destruct (file2 st) as [f2|] eqn:F; cbn [file2 set_file1Content].
    + rewrite F. destruct (vault f2) as [c2|m2]; [discriminate|].
      intros H. injection H as <-. cbn. eauto.
    + rewrite F. cbn. destruct (initialFile2Provided st); [|discriminate].
      intros H. injection H as <-. cbn. eauto.
  - intros H. injection H as <-. cbn. eauto.
Qed.

(** A load that succeeds has read the first file, and the second one if
    one is set, and holds what was read. *)
Lemma loadFilesContent_true (st st' : State) :
  loadFilesContent vault st = (true, st') ->
  exists c1,
    vault (file1 st) = Content c1 /\
    file1Content st' = c1 /\
    file2 st' = file2 st /\
    notices st' = notices st /\
    diffCalls st' = diffCalls st /\
    match file2 st with
    | Some f2 => exists c2, vault f2 = Content c2 /\ file2Content st' = c2
    | None => file2Content st' = file2Content st
    end.
Proof.
  unfold loadFilesContent, loadFailed.
  destruct (vault (file1 st)) as [c1|m1]; [|discriminate].
  destruct (file2 st) as [f2|] eqn:F; cbn [file2 set_file1Content]; rewrite F.
  - destruct (vault f2) as [c2|m2]; [|discriminate].
    intros H. injection H as <-. exists c1. cbn. rewrite F.
    repeat split. eauto.
  - cbn. destruct (initialFile2Provided st); [discriminate|].
    intros H. injection H as <-. exists c1. cbn. rewrite F. repeat split.
Qed.

Lemma readFails_load (st : State) :
  readFails vault st ->
  exists failedFile,
    loadFilesContent vault st =
    (false, Notice ("Error reading content for " ++ failedFile)
              (match vault (file1 st) with
               | Content c1 => set_file1Content c1 st
               | Throws _ => st
               end)).
Proof.
  intros [[m H]|(f2 & m & F & H)]; unfold loadFilesContent.
  - rewrite H. apply loadFailed_spec.
  - destruct (vault (file1 st)) as [c1|m1]; [|apply loadFailed_spec].
    cbn [file2 set_file1Content]. rewrite F, H. apply loadFailed_spec.
Qed.

(** C8. In [onOpen], when reading the first file fails, or reading the
    second one does, the user gets the notice "Error reading content for
    ...", no diff is run, and the result area reads "Error loading file
    content.". A diff is run in [onOpen] only when both files were read,
    and then on the two contents that were read. *)
Theorem failed_read_is_reported_and_not_compared (st : State) :
  (readFails vault st ->
     (exists failedFile,
        notices (onOpen vault st) =
        notices st ++ [("Error reading content for " ++ failedFile)%string]) /\
     diffCalls (onOpen vault st) = diffCalls st /\
     resultEl (onOpen vault st) = [TextNode "Error loading file content."]) /\
  (diffCalls (onOpen vault st) <> diffCalls st ->
     exists f2 c1 c2,
       file2 st = Some f2 /\
       vault (file1 st) = Content c1 /\
       vault f2 = Content c2 /\
       diffCalls (onOpen vault st) = diffCalls st ++ [(c1, c2)]).
Proof.
  set (st0 := setText "Loading comparison..." (set_resultEl [] st)).
  assert (onOpen vault st =
          let (success, st') := loadFilesContent vault st0 in
          if success then updateDiffDisplay st'
          else setText "Error loading file content." st') as E by reflexivity.
  split.
  - intros R.
    assert (readFails vault st0) as R0 by exact R.
    destruct (readFails_load st0 R0) as [failedFile L].
    rewrite E, L. cbn [setText]. split; [exists failedFile|split].
    + destruct (vault (file1 st0)); reflexivity.
    + destruct (vault (file1 st0)); reflexivity.
    + reflexivity.
  - intros D. rewrite E in *.
    destruct (loadFilesContent vault st0) as [[|] st'] eqn:L.
    + apply loadFilesContent_true in L.
      destruct L as (c1 & V1 & C1 & F2 & _ & DC & M).
      rewrite updateDiffDisplay_diffCalls in *. rewrite DC in *.
      change (diffCalls st0) with (diffCalls st) in *.
      change (file2 st0) with (file2 st) in *.
      change (file1 st0) with (file1 st) in *.
      destruct (notReady st') eqn:N; [rewrite app_nil_r in D; congruence|].
      destruct (file2 st) as [f2|] eqn:F.
      * destruct M as (c2 & V2 & C2). exists f2, c1, c2.
        rewrite C1, C2. auto.
      * unfold notReady in N. rewrite F2 in N. discriminate.
    + apply loadFilesContent_false in L. destruct L as [_ DC].
      cbn in D. rewrite DC in D. now elim D.
Qed.

(** The same holds when a file is picked in the search field: after a
    failed read no diff is run and the selection is reset. *)
Lemma selectFile_failed_read (file : TFile) (st : State) :
  readFails vault (set_file2 (Some file) st) ->
  diffCalls (selectFile vault file st) = diffCalls st /\
  file2 (selectFile vault file st) = None /\
  resultEl (selectFile vault file st) =
    [TextNode "Select a file to compare against."].
Proof.
  intros R. unfold selectFile.
  set (st0 := Notice ("Selected: " ++ basename file) (set_file2 (Some file) st)).
  assert (readFails vault st0) as R0 by exact R.
  destruct (readFails_load st0 R0) as [failedFile L]. rewrite L.
  destruct (vault (file1 st0)); repeat split.
Qed.

End Loading.

Lemma failed_read_is_reported_and_not_compared_witness :
  let f1 := mkTFile "a.md" "a" in
  let f2 := mkTFile "b.md" "b" in
  let vault := fun f : TFile =>
    if String.eqb (path f) "a.md" then Content "x"
    else Throws (Some "cannot read b") in
  let st := constructor f1 (Some f2) in
  diffCalls (onOpen vault st) = [] /\
  resultEl (onOpen vault st) = [TextNode "Error loading file content."].
Proof.
  intros f1 f2 vault st.
  destruct (failed_read_is_reported_and_not_compared vault st) as [H _].
  apply H. right. exists f2, (Some "cannot read b"). split; reflexivity.
Defined.

(** ** Empty contents *)

(** With a second file set and one content empty, the result area says
    that content is awaited and no diff is run. *)
Lemma empty_content_waits (st : State) :
  selected st = true ->
  file1Content st = "" \/ file2Content st = "" ->
  resultEl (updateDiffDisplay st) = [TextNode "Waiting for file content..."] /\
  diffCalls (updateDiffDisplay st) = diffCalls st.
Proof.
  intros S H. rewrite updateDiffDisplay_resultEl, updateDiffDisplay_diffCalls.
  rewrite (notReady_empty st H), S, app_nil_r. auto.
Qed.

Lemma notReady_false (st : State) :
  notReady st = false <->
  selected st = true /\ file1Content st <> "" /\ file2Content st <> "".
Proof.
  unfold notReady, selected. rewrite <- !falsy_false.
  destruct (file2 st), (falsy (file1Content st)), (falsy (file2Content st));
    cbn; intuition congruence.
Qed.

(** A second note that is empty and was read without error is not
    compared. *)
Lemma loaded_empty_document_is_not_compared :
  ~ comparesWhatWasRead
      (fun f : TFile =>
         if String.eqb (path f) "a.md" then Content ("x" ++ NL) else Content "")
      (mkTFile "a.md" "a") (mkTFile "b.md" "b").
Proof.
  intros H. specialize (H ("x" ++ NL)%string "" eq_refl eq_refl).
  discriminate.
Qed.

(** When [updateDiffDisplay] runs the diff: both contents of a new modal
    are the empty string, and the diff is run, on the two contents held,
    exactly when a second file is selected and both contents are not
    empty; otherwise one text is left in the result area. *)
Theorem diff_runs_only_on_nonempty_contents (st : State) :
  (forall f1 f2,
     file1Content (constructor f1 f2) = "" /\
     file2Content (constructor f1 f2) = "") /\
  (selected st = true /\ file1Content st <> "" /\ file2Content st <> "" ->
     diffCalls (updateDiffDisplay st) =
       diffCalls st ++ [(file1Content st, file2Content st)] /\
     resultEl (updateDiffDisplay st) =
       map SpanNode (renderDiff (file1Content st) (file2Content st))) /\
  (selected st = false \/ file1Content st = "" \/ file2Content st = "" ->
     diffCalls (updateDiffDisplay st) = diffCalls st /\
     exists text, resultEl (updateDiffDisplay st) = [TextNode text]).
Proof.
  split; [intros; split; reflexivity|].
  rewrite updateDiffDisplay_resultEl, updateDiffDisplay_diffCalls.
  split.
  - intros H. apply notReady_false in H. rewrite H. auto.
  - intros H. destruct (notReady st) eqn:N.
    + rewrite app_nil_r. eauto.
    + apply notReady_false in N. destruct N as (N1 & N2 & N3).
      destruct H as [H|[H|H]]; congruence.
Qed.

Lemma diff_runs_only_on_nonempty_contents_witness :
  let st := mkState (mkTFile "a.md" "a") (Some (mkTFile "b.md" "b"))
                    "" ("x" ++ NL) [] true [] [] in
  diffCalls (updateDiffDisplay st) = [] /\
  exists text, resultEl (updateDiffDisplay st) = [TextNode text].
Proof.
  intros st.
  destruct (diff_runs_only_on_nonempty_contents st) as (_ & _ & H).
  apply H. right. right. reflexivity.
Defined.

(** C2, on the code. A second note that is empty is read without error:
    [loadFilesContent] returns true, no notice is raised, and the modal
    holds the content read, the empty string. Yet no diff is run and the
    result area reads "Waiting for file content...", as it does for a
    modal whose contents were never loaded: the guard of
    [updateDiffDisplay] takes the empty content for one that is not
    ready. *)
Example empty_note_run :
  let f1 := mkTFile "a.md" "a" in
  let f2 := mkTFile "b.md" "b" in
  let vault := fun f : TFile =>
    if String.eqb (path f) "a.md" then Content ("x" ++ NL) else Content "" in
  let st := onOpen vault (constructor f1 (Some f2)) in
  fst (loadFilesContent vault (constructor f1 (Some f2))) = true /\
  file1Content st = ("x" ++ NL)%string /\
  file2Content st = "" /\
  notices st = [] /\
  diffCalls st = [] /\
  resultEl st = [TextNode "Waiting for file content..."] /\
  resultEl (updateDiffDisplay (constructor f1 (Some f2))) = resultEl st.
Proof. repeat split. Qed.

(** ** Examples *)

Example diff_one_line_changed :
  renderDiff ("a" ++ NL ++ "b" ++ NL) ("a" ++ NL ++ "c" ++ NL) =
    [mkSpan "diff-unchanged" [mkLineSpan "  a" true];
     mkSpan "diff-removed" [mkLineSpan "- b" false];
     mkSpan "diff-added" [mkLineSpan "+ c" false];
     mkSpan "diff-unchanged" [mkLineSpan "  " true]].
Proof. reflexivity. Qed.

Example diff_all_added :
  renderDiff "" ("x" ++ NL ++ "y" ++ NL) =
    [mkSpan "diff-added" [mkLineSpan "+ x" true; mkLineSpan "+ y" true]].
Proof. reflexivity. Qed.

Example onOpen_two_notes :
  let f1 := mkTFile "a.md" "a" in
  let f2 := mkTFile "b.md" "b" in
  let vault := fun f : TFile =>
    if String.eqb (path f) "a.md" then Content ("x" ++ NL) else Content "y" in
  let st := onOpen vault (constructor f1 (Some f2)) in
  diffCalls st = [(("x" ++ NL)%string, "y")] /\
  resultEl st =
    [SpanNode (mkSpan "diff-removed" [mkLineSpan "- x" true]);
     SpanNode (mkSpan "diff-added" [mkLineSpan "+ y" false])].
Proof. split; reflexivity. Qed.

(** ** The search field and its suggestions *)

Lemma in_firstn {A : Type} (n : nat) (l : list A) (x : A) :
  In x (firstn n l) -> In x l.
Proof.
  intros H. rewrite <- (firstn_skipn n l). apply in_or_app. now left.
Qed.

Section SearchFacts.

Variable toLowerCase : string -> string.

Lemma suggested_file (markdownFiles : list TFile) (value : string)
    (st : State) (file : TFile) :
  In file (Search.suggestionsFor toLowerCase markdownFiles value st) ->
  In file markdownFiles /\
  includes (toLowerCase (path file)) (toLowerCase value) = true /\
  path file <> path (file1 st).
Proof.
  unfold Search.suggestionsFor. intros H.
  apply in_firstn in H. apply filter_In in H.
  destruct H as [Hin H]. unfold Search.isSuggested in H.
  apply andb_true_iff in H. destruct H as [H1 H2].
  repeat split; auto. apply negb_true_iff, String.eqb_neq in H2. exact H2.
Qed.

(** X1. At most ten files are suggested, and each of them is a Markdown
    file of the vault whose lower-cased path includes the lower-cased
    search value and whose path is not the path of the first file. *)
Theorem suggestions_are_matches (markdownFiles : list TFile) (value : string)
    (st : State) :
  List.length (Search.suggestionsFor toLowerCase markdownFiles value st) <= 10 /\
  (forall file, In file (Search.suggestionsFor toLowerCase markdownFiles value st) ->
     In file markdownFiles /\
     includes (toLowerCase (path file)) (toLowerCase value) = true /\
     path file <> path (file1 st)).
Proof.
  split.
  - unfold Search.suggestionsFor. apply firstn_le_length.
  - intros file. apply suggested_file.
Qed.

(** X2. The suggestions are the matching files in the order of the vault,
    all of them when there are at most ten; a matching file is left out
    only when ten files before it are shown. *)
Theorem suggestions_are_first_matches (markdownFiles : list TFile)
    (value : string) (st : State) :
  (exists rest,
     filter (Search.isSuggested toLowerCase st (toLowerCase value)) markdownFiles =
     Search.suggestionsFor toLowerCase markdownFiles value st ++ rest) /\
  (List.length (filter (Search.isSuggested toLowerCase st (toLowerCase value)) markdownFiles) <= 10 ->
   Search.suggestionsFor toLowerCase markdownFiles value st =
   filter (Search.isSuggested toLowerCase st (toLowerCase value)) markdownFiles) /\
  (forall file,
     In file markdownFiles ->
     Search.isSuggested toLowerCase st (toLowerCase value) file = true ->
     ~ In file (Search.suggestionsFor toLowerCase markdownFiles value st) ->
     List.length (Search.suggestionsFor toLowerCase markdownFiles value st) = 10).
Proof.
  unfold Search.suggestionsFor.
  set (ms := filter (Search.isSuggested toLowerCase st (toLowerCase value))
                    markdownFiles).
  split; [|split].
  - exists (skipn 10 ms). symmetry. apply firstn_skipn.
  - intros L. now apply firstn_all2.
  - intros file Hin Hm Hn.
    destruct (Nat.le_gt_cases (List.length ms) 10) as [L|L].
    + rewrite firstn_all2 in Hn by exact L. elim Hn.
      apply filter_In. now split.
    + rewrite length_firstn. lia.
Qed.

(** X3. Emptying the search field drops the selection: no suggestion is
    shown, no second file is selected, the result area asks to select a
    file and no diff is run, whatever was compared before; the contents
    held are not touched. *)
Theorem empty_search_drops_selection (markdownFiles : list TFile) (st : State) :
  let r := Search.onChange toLowerCase markdownFiles "" st in
  snd r = [] /\
  file2 (fst r) = None /\
  resultEl (fst r) = [TextNode "Select a file to compare against."] /\
  diffCalls (fst r) = diffCalls st /\
  file1Content (fst r) = file1Content st /\
  file2Content (fst r) = file2Content st /\
  notices (fst r) = notices st.
Proof.
  cbn [Search.onChange falsy fst snd]. unfold searchCleared.
  destruct (updateDiffDisplay_keeps (set_file2 None st)) as (_ & K2 & K3 & K4 & K5).
  rewrite updateDiffDisplay_resultEl, updateDiffDisplay_diffCalls.
  rewrite K2, K3, K4, K5. repeat split. now rewrite app_nil_r.
Qed.

End SearchFacts.

Lemma suggestions_are_matches_witness :
  let a := mkTFile "notes/a.md" "a" in
  let b := mkTFile "notes/b.md" "b" in
  let st := constructor a None in
  path b <> path (file1 st).
Proof.
  intros a b st.
  destruct (suggestions_are_matches (fun s => s) [a; b] "notes" st) as [_ H].
  apply (H b). left. reflexivity.
Defined.

Lemma suggestions_are_first_matches_witness :
  let a := mkTFile "notes/a.md" "a" in
  let b := mkTFile "notes/b.md" "b" in
  let st := constructor a None in
  Search.suggestionsFor (fun s => s) [a; b] "notes" st = [b].
Proof.
  intros a b st.
  destruct (suggestions_are_first_matches (fun s => s) [a; b] "notes" st)
    as (_ & H & _).
  rewrite H; [reflexivity|]. cbn. lia.
Defined.

(** ** Picking a file *)

Ltac run_selectFile vault file :=
  unfold selectFile, loadFilesContent, loadFailed;
  cbn -[updateDiffDisplay renderDiff append];
  match goal with
  | |- context [vault ?f1] =>
      destruct (vault f1) as [?c1|?m1]; cbn -[updateDiffDisplay renderDiff append];
      [destruct (vault file) as [?c2|?m2];
       cbn -[updateDiffDisplay renderDiff append]|]
  end.

Section SelectFacts.

Variable vault : Vault.

Lemma selectFile_file1 (file : TFile) (st : State) :
  file1 (selectFile vault file st) = file1 st.
Proof.
  destruct st as [f1 f2 k2 k1 r i n d]. run_selectFile vault file;
    match goal with
    | |- file1 (updateDiffDisplay ?s) = _ =>
        destruct (updateDiffDisplay_keeps s) as [K _]; now rewrite K
    end.
Qed.

(** What the modal holds and shows after a file was picked, by the
    outcome of the two reads. *)
Lemma selectFile_outcome (file : TFile) (st : State) :
  let st' := selectFile vault file st in
  match vault (file1 st), vault file with
  | Content c1, Content c2 =>
      file2 st' = Some file /\ file2Content st' = c2 /\ file1Content st' = c1 /\
      resultEl st' =
        (if falsy c1 || falsy c2
         then [TextNode "Waiting for file content..."]
         else map SpanNode (renderDiff c1 c2)) /\
      diffCalls st' =
        diffCalls st ++ (if falsy c1 || falsy c2 then [] else [(c1, c2)]) /\
      notices st' = notices st ++ [("Selected: " ++ basename file)%string]
  | _, _ =>
      file2 st' = None /\ file2Content st' = "" /\
      resultEl st' = [TextNode "Select a file to compare against."] /\
      diffCalls st' = diffCalls st /\
      exists failedFile,
        notices st' =
        notices st ++ [("Selected: " ++ basename file)%string;
                       ("Error reading content for " ++ failedFile)%string]
  end.
Proof.
  destruct st as [f1 f2 k2 k1 r i n d]. run_selectFile vault file;
    match goal with
    | |- context [updateDiffDisplay ?s] =>
        destruct (updateDiffDisplay_keeps s) as (_ & K2 & K3 & K4 & K5);
        rewrite (updateDiffDisplay_resultEl s), (updateDiffDisplay_diffCalls s)
    end; cbn -[renderDiff append] in K2, K3, K4, K5 |- *;
    rewrite ?K2, ?K3, ?K4, ?K5.
  - repeat split.
  - split; [|split; [|split; [|split]]]; try reflexivity;
      [apply app_nil_r|eexists; rewrite <- app_assoc; reflexivity].
  - split; [|split; [|split; [|split]]]; try reflexivity;
      [apply app_nil_r|eexists; rewrite <- app_assoc; reflexivity].
Qed.

(** X4. When both files are read and neither is empty, picking a file
    shows the diff of the two contents just read, runs the diff once on
    them and raises the notice "Selected: ..." and no other. *)
Theorem selectFile_shows_what_was_read (file : TFile) (st : State)
    (c1 c2 : string) :
  vault (file1 st) = Content c1 ->
  vault file = Content c2 ->
  c1 <> "" -> c2 <> "" ->
  let st' := selectFile vault file st in
  file2 st' = Some file /\
  file1Content st' = c1 /\ file2Content st' = c2 /\
  resultEl st' = map SpanNode (renderDiff c1 c2) /\
  diffCalls st' = diffCalls st ++ [(c1, c2)] /\
  notices st' = notices st ++ [("Selected: " ++ basename file)%string].
Proof.
  intros V1 V2 N1 N2. pose proof (selectFile_outcome file st) as H.
  cbv zeta in H. rewrite V1, V2 in H.
  apply falsy_false in N1, N2. rewrite N1, N2 in H. cbn [orb] in H.
  cbv zeta. tauto.
Qed.

(** X5. When a read fails after a file was picked, the selection is
    reset: no second file, an empty second content, the result area asks
    to select a file, no diff is run, and the user has seen "Selected:
    ..." followed by "Error reading content for ...". *)
Theorem selectFile_failure_resets (file : TFile) (st : State) :
  readFails vault (set_file2 (Some file) st) ->
  let st' := selectFile vault file st in
  file2 st' = None /\ file2Content st' = "" /\
  resultEl st' = [TextNode "Select a file to compare against."] /\
  diffCalls st' = diffCalls st /\
  exists failedFile,
    notices st' =
    notices st ++ [("Selected: " ++ basename file)%string;
                   ("Error reading content for " ++ failedFile)%string].
Proof.
  intros R. pose proof (selectFile_outcome file st) as H. cbv zeta in *.
  destruct R as [[m R]|(f2 & m & F & R)]; cbn in R.
  - rewrite R in H. exact H.
  - cbn in F. injection F as <-. rewrite R in H.
    destruct (vault (file1 st)); exact H.
Qed.

(** Picks in turn: picking [x] and then [y], each call run to its end
    before the next starts, leaves the same selection, second content and
    result area as picking [y] at once. *)
Lemma selectFile_last_wins (x y : TFile) (st : State) :
  let st1 := selectFile vault y (selectFile vault x st) in
  let st2 := selectFile vault y st in
  file2 st1 = file2 st2 /\
  file2Content st1 = file2Content st2 /\
  resultEl st1 = resultEl st2.
Proof.
  pose proof (selectFile_outcome y (selectFile vault x st)) as H1.
  pose proof (selectFile_outcome y st) as H2.
  cbv zeta in *. rewrite selectFile_file1 in H1.
  destruct (vault (file1 st)) as [c1|m1]; [destruct (vault y) as [c2|m2]|].
  - destruct H1 as (A1 & B1 & _ & C1 & _), H2 as (A2 & B2 & _ & C2 & _).
    now rewrite A1, A2, B1, B2, C1, C2.
  - destruct H1 as (A1 & B1 & C1 & _), H2 as (A2 & B2 & C2 & _).
    now rewrite A1, A2, B1, B2, C1, C2.
  - destruct H1 as (A1 & B1 & C1 & _), H2 as (A2 & B2 & C2 & _).
    now rewrite A1, A2, B1, B2, C1, C2.
Qed.

Lemma inTurn_selectFile (file : TFile) (st : State) :
  Picks.inTurn vault file st = selectFile vault file st.
Proof.
  destruct st as [f1 f2 k2 k1 r i n d].
  unfold Picks.inTurn, Picks.begin, Picks.file1Read, Picks.file2Read,
    Picks.finish, selectFile, loadFilesContent.
  cbn -[updateDiffDisplay loadFailed append].
  destruct (vault f1) as [c1|m1]; cbn -[updateDiffDisplay loadFailed append];
    [destruct (vault file) as [c2|m2]|]; reflexivity.
Qed.

(** X6. A pick is [selectFile] taken one await at a time. Picks that run
    in turn, each to its end, leave what the last one alone leaves. Picks
    that overlap do not: when [c] is picked, and that call ends, while the
    call for [b] still waits for its read of [b], then once that read
    lands the modal has [c] selected but holds the content of [b] and
    shows the diff against it. *)
Theorem picks_in_turn_and_overlapping (b c : TFile) (st : State)
    (x y z : string) :
  Picks.inTurn vault c (Picks.inTurn vault b st) = selectFile vault c (selectFile vault b st) /\
  file2 (Picks.inTurn vault c (Picks.inTurn vault b st)) = file2 (Picks.inTurn vault c st) /\
  file2Content (Picks.inTurn vault c (Picks.inTurn vault b st)) =
    file2Content (Picks.inTurn vault c st) /\
  resultEl (Picks.inTurn vault c (Picks.inTurn vault b st)) =
    resultEl (Picks.inTurn vault c st) /\
  (vault (file1 st) = Content x -> vault b = Content y -> vault c = Content z ->
   x <> "" -> y <> "" ->
   file2 (Picks.overlapped vault b c st) = Some c /\
   file2Content (Picks.overlapped vault b c st) = y /\
   file1Content (Picks.overlapped vault b c st) = x /\
   resultEl (Picks.overlapped vault b c st) = map SpanNode (renderDiff x y)).
Proof.
  rewrite !inTurn_selectFile.
  destruct (selectFile_last_wins b c st) as (L1 & L2 & L3).
  split; [reflexivity|]. split; [exact L1|]. split; [exact L2|].
  split; [exact L3|].
  intros V1 Vb Vc Nx Ny. unfold Picks.overlapped.
  change (file1 (Picks.begin b st)) with (file1 st). rewrite V1.
  unfold Picks.file1Read.
  change (file2 (set_file1Content x (Picks.begin b st))) with (Some b).
  cbv iota beta zeta. rewrite inTurn_selectFile, Vb.
  set (s2 := set_file1Content x (Picks.begin b st)).
  pose proof (selectFile_outcome c s2) as O. cbv zeta in O.
  change (file1 s2) with (file1 st) in O. rewrite V1, Vc in O.
  destruct O as (O1 & _ & O3 & _).
  unfold Picks.file2Read, Picks.finish.
  set (s3 := set_file2Content y (selectFile vault c s2)).
  destruct (updateDiffDisplay_keeps s3) as (_ & K2 & K3 & K4 & _).
  rewrite K2, K3, K4, updateDiffDisplay_resultEl.
  unfold notReady. subst s3. cbn [file2 file1Content file2Content set_file2Content].
  rewrite O1, O3. apply falsy_false in Nx, Ny. rewrite Nx, Ny.
  repeat split.
Qed.

End SelectFacts.

Lemma picks_in_turn_and_overlapping_witness :
  let a := mkTFile "a.md" "a" in
  let b := mkTFile "b.md" "b" in
  let c := mkTFile "c.md" "c" in
  let vault := fun f : TFile =>
    if String.eqb (path f) "a.md" then Content "x"
    else if String.eqb (path f) "b.md" then Content "y" else Content "z" in
  file2 (Picks.overlapped vault b c (constructor a None)) = Some c /\
  file2Content (Picks.overlapped vault b c (constructor a None)) = "y" /\
  file1Content (Picks.overlapped vault b c (constructor a None)) = "x" /\
  resultEl (Picks.overlapped vault b c (constructor a None)) =
    map SpanNode (renderDiff "x" "y").
Proof.
  intros a b c vault.
  destruct (picks_in_turn_and_overlapping vault b c (constructor a None) "x" "y" "z")
    as (_ & _ & _ & _ & H).
  apply H; try reflexivity; discriminate.
Defined.

Lemma selectFile_shows_what_was_read_witness :
  let a := mkTFile "a.md" "a" in
  let b := mkTFile "b.md" "b" in
  let vault := fun f : TFile =>
    if String.eqb (path f) "a.md" then Content "x" else Content "y" in
  resultEl (selectFile vault b (constructor a None)) =
  map SpanNode (renderDiff "x" "y").
Proof.
  intros a b vault.
  destruct (selectFile_shows_what_was_read vault b (constructor a None) "x" "y")
    as (_ & _ & _ & H & _);
    [reflexivity|reflexivity|discriminate|discriminate|exact H].
Defined.

Lemma selectFile_failure_resets_witness :
  let a := mkTFile "a.md" "a" in
  let b := mkTFile "b.md" "b" in
  let vault := fun f : TFile =>
    if String.eqb (path f) "a.md" then Content "x" else Throws None in
  file2 (selectFile vault b (constructor a None)) = None.
Proof.
  intros a b vault.
  destruct (selectFile_failure_resets vault b (constructor a None)) as [H _];
    [|exact H].
  right. exists b, None. split; reflexivity.
Defined.

(** ** What holds in every state of a modal *)

Lemma updateDiffDisplay_initial (st : State) :
  initialFile2Provided (updateDiffDisplay st) = initialFile2Provided st.
Proof.
  destruct st as [f1 [f2|] c2 c1 r i n d];
    unfold updateDiffDisplay, notReady; cbn; destruct c1, c2; reflexivity.
Qed.

Lemma updateDiffDisplay_again (st : State) :
  resultEl (updateDiffDisplay (updateDiffDisplay st)) =
  resultEl (updateDiffDisplay st).
Proof.
  destruct (updateDiffDisplay_keeps st) as (_ & K2 & K3 & K4 & _).
  rewrite (updateDiffDisplay_resultEl (updateDiffDisplay st)).
  rewrite (updateDiffDisplay_resultEl st).
  unfold notReady, selected. now rewrite K2, K3, K4.
Qed.

Lemma updateDiffDisplay_calls_nonempty (st : State) :
  Forall (fun p => fst p <> "" /\ snd p <> "") (diffCalls st) ->
  Forall (fun p => fst p <> "" /\ snd p <> "") (diffCalls (updateDiffDisplay st)).
Proof.
  intros H. rewrite updateDiffDisplay_diffCalls. apply Forall_app.
  split; [exact H|]. destruct (notReady st) eqn:N; [constructor|].
  apply notReady_false in N. repeat constructor; tauto.
Qed.

(** What is on display after an update: one text, or the diff of the two
    contents held, both not empty, with a second file selected. *)
Lemma updateDiffDisplay_shows (st : State) :
  (exists text, resultEl (updateDiffDisplay st) = [TextNode text]) \/
  (selected st = true /\ file1Content st <> "" /\ file2Content st <> "" /\
   resultEl (updateDiffDisplay st) =
     map SpanNode (renderDiff (file1Content st) (file2Content st))).
Proof.
  rewrite updateDiffDisplay_resultEl. destruct (notReady st) eqn:N.
  - left. eauto.
  - right. apply notReady_false in N. tauto.
Qed.

Ltac run_onOpen vault :=
  unfold onOpen, loadFilesContent, loadFailed;
  cbn -[updateDiffDisplay renderDiff append];
  match goal with
  | |- context [vault ?f1] =>
      destruct (vault f1) as [?c1|?m1]; cbn -[updateDiffDisplay renderDiff append]
  end;
  try match goal with
  | |- context [vault ?f2] =>
      destruct (vault f2) as [?c2|?m2]; cbn -[updateDiffDisplay renderDiff append]
  end.

(** A modal as [onOpen] leaves it is an updated state or shows the load
    error; its files are those of the constructor, no diff was run on an
    empty content, and every notice is "Error reading content for ...". *)
Lemma onOpen_constructor (vault : Vault) (f1 : TFile) (f2 : option TFile) :
  let st' := onOpen vault (constructor f1 f2) in
  file1 st' = f1 /\ file2 st' = f2 /\
  initialFile2Provided st' = match f2 with Some _ => true | None => false end /\
  Forall (fun p => fst p <> "" /\ snd p <> "") (diffCalls st') /\
  (resultEl st' = [TextNode "Error loading file content."] \/
   exists s, st' = updateDiffDisplay s) /\
  (forall text, In text (notices st') ->
     exists failedFile,
       text = ("Error reading content for " ++ failedFile)%string).
Proof.
  destruct f2 as [f2|]; run_onOpen vault;
    try match goal with
    | |- context [updateDiffDisplay ?s] =>
        destruct (updateDiffDisplay_keeps s) as (K1 & K2 & _ & _ & K5);
        pose proof (updateDiffDisplay_initial s) as K6;
        pose proof (updateDiffDisplay_calls_nonempty s (Forall_nil _)) as K7;
        rewrite K1, K2, K5, K6
    end;
    cbn -[updateDiffDisplay renderDiff append];
    (split; [reflexivity|split; [reflexivity|split; [reflexivity|
     split; [first [exact K7|constructor]|split; [eauto|]]]]]);
    intros text H; cbn -[append] in H; try contradiction;
    destruct H as [<-|[]]; eexists; reflexivity.
Qed.

(** A modal after a pick is an updated state with the same first file,
    no further diff call before the update, a second file that is the
    picked one or none, and two kinds of new notices. *)
Lemma selectFile_form (vault : Vault) (file : TFile) (st : State) :
  exists s,
    selectFile vault file st = updateDiffDisplay s /\
    file1 s = file1 st /\
    initialFile2Provided s = initialFile2Provided st /\
    diffCalls s = diffCalls st /\
    (file2 s = Some file \/ file2 s = None) /\
    (forall text, In text (notices s) ->
       In text (notices st) \/
       text = ("Selected: " ++ basename file)%string \/
       exists failedFile,
         text = ("Error reading content for " ++ failedFile)%string).
Proof.
  destruct st as [f1 f2 k2 k1 r i n d]. run_selectFile vault file;
    eexists; (split; [reflexivity|]);
    cbn -[append]; repeat split; auto;
    intros text H; rewrite ?in_app_iff in H; cbn -[append] in H;
    intuition eauto.
Qed.

Section ReachableFacts.

Variable toLowerCase : string -> string.

(** X7. A modal never holds the same file twice: in every state the
    second file, if there is one, has a path other than the first
    file's. *)
Theorem reachable_files_differ (st : State) :
  Search.Reachable toLowerCase st ->
  Search.distinct (file1 st) (file2 st).
Proof.
  induction 1 as [f1 f2 vault D | st files value R IH Hi
                 | st files value file vault R IH Hi Hin].
  - destruct (onOpen_constructor vault f1 f2) as (E1 & E2 & _).
    cbv zeta in *. now rewrite E1, E2.
  - unfold Search.onChange. destruct (falsy value); [|exact IH].
    cbn [fst]. unfold searchCleared.
    destruct (updateDiffDisplay_keeps (set_file2 None st)) as (_ & K2 & _).
    rewrite K2. exact Logic.I.
  - unfold Search.onChange in Hin. destruct (falsy value); [contradiction|].
    cbn [snd] in Hin.
    apply (suggested_file toLowerCase files value st) in Hin.
    destruct Hin as (_ & _ & Hp).
    destruct (selectFile_form vault file st) as (s & E & E1 & _ & _ & [E2|E2] & _);
      rewrite E; destruct (updateDiffDisplay_keeps s) as (K1 & K2 & _);
      rewrite K1, K2, E1, E2; cbn; auto.
Qed.

(** X8. The diff is never run on an empty content: in every state, each
    call made so far had two contents that were not empty. *)
Theorem reachable_diff_calls_nonempty (st : State) :
  Search.Reachable toLowerCase st ->
  Forall (fun p => fst p <> "" /\ snd p <> "") (diffCalls st).
Proof.
  induction 1 as [f1 f2 vault D | st files value R IH Hi
                 | st files value file vault R IH Hi Hin].
  - apply (onOpen_constructor vault f1 f2).
  - unfold Search.onChange. destruct (falsy value); [|exact IH].
    cbn [fst]. unfold searchCleared.
    apply updateDiffDisplay_calls_nonempty. exact IH.
  - destruct (selectFile_form vault file st) as (s & E & _ & _ & E3 & _).
    rewrite E. apply updateDiffDisplay_calls_nonempty. now rewrite E3.
Qed.

(** X9. What is on display is never stale: in every state the result
    area holds one text, or the diff of the two contents the modal holds
    now, both not empty, with a second file selected. *)
Theorem reachable_display_is_current (st : State) :
  Search.Reachable toLowerCase st ->
  (exists text, resultEl st = [TextNode text]) \/
  (selected st = true /\ file1Content st <> "" /\ file2Content st <> "" /\
   resultEl st = map SpanNode (renderDiff (file1Content st) (file2Content st))).
Proof.
  assert (forall s,
    (exists text, resultEl (updateDiffDisplay s) = [TextNode text]) \/
    (selected (updateDiffDisplay s) = true /\
     file1Content (updateDiffDisplay s) <> "" /\
     file2Content (updateDiffDisplay s) <> "" /\
     resultEl (updateDiffDisplay s) =
       map SpanNode (renderDiff (file1Content (updateDiffDisplay s))
                                (file2Content (updateDiffDisplay s))))) as U.
  { intros s. destruct (updateDiffDisplay_keeps s) as (_ & K2 & K3 & K4 & _).
    unfold selected. rewrite K2, K3, K4. apply updateDiffDisplay_shows. }
  induction 1 as [f1 f2 vault D | st files value R IH Hi
                 | st files value file vault R IH Hi Hin].
  - destruct (onOpen_constructor vault f1 f2) as (_ & _ & _ & _ & [E|[s E]] & _);
      cbv zeta in E; rewrite E; [left; eauto|apply U].
  - unfold Search.onChange. destruct (falsy value); [|exact IH].
    cbn [fst]. unfold searchCleared. apply U.
  - destruct (selectFile_form vault file st) as (s & E & _).
    rewrite E. apply U.
Qed.

(** X10. The notice "Internal error: File 2 missing." is never raised,
    and a modal that was given a second file always has one selected. *)
Theorem reachable_no_internal_error (st : State) :
  Search.Reachable toLowerCase st ->
  ~ In "Internal error: File 2 missing." (notices st) /\
  (initialFile2Provided st = true -> selected st = true).
Proof.
  induction 1 as [f1 f2 vault D | st files value R IH Hi
                 | st files value file vault R IH Hi Hin].
  - destruct (onOpen_constructor vault f1 f2) as (_ & E2 & E3 & _ & _ & N).
    cbv zeta in *. split.
    + intros H. apply N in H. destruct H as [x H]. discriminate.
    + unfold selected. rewrite E2, E3. destruct f2; auto.
  - unfold Search.onChange. destruct (falsy value); [|exact IH].
    cbn [fst]. unfold searchCleared.
    destruct (updateDiffDisplay_keeps (set_file2 None st)) as (_ & _ & _ & _ & K5).
    rewrite K5, updateDiffDisplay_initial. cbn. split; [apply IH|congruence].
  - destruct (selectFile_form vault file st) as (s & E & _ & E2 & _ & _ & N).
    rewrite E. destruct (updateDiffDisplay_keeps s) as (_ & _ & _ & _ & K5).
    rewrite K5, updateDiffDisplay_initial, E2. split; [|congruence].
    intros H. apply N in H. destruct H as [H|[H|[x H]]]; try discriminate.
    now apply IH.
Qed.

End ReachableFacts.

Lemma picked_file_is_reachable :
  let a := mkTFile "a.md" "a" in
  let b := mkTFile "b.md" "b" in
  let vault := fun f : TFile =>
    if String.eqb (path f) "a.md" then Content "x" else Content "y" in
  Search.Reachable (fun s => s) (selectFile vault b (onOpen vault (constructor a None))).
Proof.
  intros a b vault.
  apply (Search.reach_select (fun s => s) _ [a; b] "b" b vault).
  - apply Search.reach_open. exact I.
  - reflexivity.
  - left. reflexivity.
Qed.

Lemma reachable_files_differ_witness :
  Search.distinct (mkTFile "a.md" "a") (Some (mkTFile "b.md" "b")).
Proof.
  exact (reachable_files_differ (fun s => s) _ picked_file_is_reachable).
Defined.

Lemma reachable_diff_calls_nonempty_witness :
  Forall (fun p : string * string => fst p <> "" /\ snd p <> "") [("x", "y")].
Proof.
  exact (reachable_diff_calls_nonempty (fun s => s) _ picked_file_is_reachable).
Defined.

Lemma reachable_display_is_current_witness :
  (exists text, map SpanNode (renderDiff "x" "y") = [TextNode text]) \/
  (true = true /\ "x" <> "" /\ "y" <> "" /\
   map SpanNode (renderDiff "x" "y") = map SpanNode (renderDiff "x" "y")).
Proof.
  exact (reachable_display_is_current (fun s => s) _ picked_file_is_reachable).
Defined.

Lemma reachable_no_internal_error_witness :
  ~ In "Internal error: File 2 missing." ["Selected: b"].
Proof.
  exact (proj1 (reachable_no_internal_error (fun s => s) _ picked_file_is_reachable)).
Defined.

(** ** The file menu and the command *)

Lemma fileMenu_in (p : Plugin.Plugin) (target : Plugin.TAbstractFile)
    (item : Plugin.MenuItem) :
  In item (Plugin.fileMenu p target) ->
  exists file,
    target = Plugin.TFileOf file "md" /\
    (item = Plugin.mkItem "Select for compare" "copy"
                          (Plugin.SelectForCompare file) \/
     exists first,
       Plugin.fileToCompare p = Some first /\
       path first <> path file /\
       item = Plugin.mkItem ("Compare with: " ++ basename first) "diff"
                            (Plugin.CompareWith file)).
Proof.
  unfold Plugin.fileMenu.
  destruct target as [fp|file ext]; [contradiction|].
  destruct (String.eqb_spec ext "md") as [->|N]; cbn [negb]; [|contradiction].
  intros [<-|H]; exists file; (split; [reflexivity|]); [now left|right].
  destruct (Plugin.fileToCompare p) as [first|]; [|contradiction].
  destruct (String.eqb_spec (path first) (path file)) as [E|N];
    cbn [negb] in H; [contradiction|].
  destruct H as [<-|[]]. now exists first.
Qed.

(** X11. The file menu gets items only on a file with the extension
    [md]: always "Select for compare", and "Compare with: ..." exactly
    when a file was selected before and its path is not the path of the
    file the menu is opened on. *)
Theorem fileMenu_items (p : Plugin.Plugin) (target : Plugin.TAbstractFile)
    (item : Plugin.MenuItem) :
  In item (Plugin.fileMenu p target) <->
  exists file,
    target = Plugin.TFileOf file "md" /\
    (item = Plugin.mkItem "Select for compare" "copy"
                          (Plugin.SelectForCompare file) \/
     exists first,
       Plugin.fileToCompare p = Some first /\
       path first <> path file /\
       item = Plugin.mkItem ("Compare with: " ++ basename first) "diff"
                            (Plugin.CompareWith file)).
Proof.
  split; [apply fileMenu_in|]. unfold Plugin.fileMenu.
  - intros (file & -> & [->|(first & F & N & ->)]);
      rewrite String.eqb_refl; cbn [negb]; [now left|right].
    rewrite F. apply String.eqb_neq in N. rewrite N. now left.
Qed.

Lemma onOpen_two_files_not_prompt (vault : Vault) (f1 f2 : TFile) :
  resultEl (onOpen vault (constructor f1 (Some f2))) <>
  [TextNode "Select a file to compare against."].
Proof.
  destruct (onOpen_constructor vault f1 (Some f2))
    as (_ & E2 & _ & _ & [E|[s E]] & _); cbv zeta in *.
  - rewrite E. discriminate.
  - rewrite E in *. destruct (updateDiffDisplay_keeps s) as (_ & K2 & _).
    rewrite updateDiffDisplay_resultEl. unfold selected.
    rewrite <- K2, E2. destruct (notReady s); [discriminate|].
    destruct (renderDiff (file1Content s) (file2Content s)); discriminate.
Qed.

Lemma onOpen_two_files_notices (vault : Vault) (f1 f2 : TFile) :
  (forall c1 c2,
     vault f1 = Content c1 -> vault f2 = Content c2 ->
     notices (onOpen vault (constructor f1 (Some f2))) = []) /\
  (readFails vault (constructor f1 (Some f2)) ->
   exists failedFile,
     notices (onOpen vault (constructor f1 (Some f2))) =
     [("Error reading content for " ++ failedFile)%string]).
Proof.
  split.
  - intros c1 c2 V1 V2. unfold onOpen, loadFilesContent.
    cbn -[updateDiffDisplay]. rewrite V1. cbn -[updateDiffDisplay].
    rewrite V2. cbn -[updateDiffDisplay].
    match goal with
    | |- notices (updateDiffDisplay ?s) = _ =>
        destruct (updateDiffDisplay_keeps s) as (_ & _ & _ & _ & K5);
        rewrite K5
    end. reflexivity.
  - intros R.
    assert (readFails vault
              (setText "Loading comparison..."
                 (set_resultEl [] (constructor f1 (Some f2))))) as R0 by exact R.
    destruct (readFails_load vault _ R0) as [failedFile L].
    exists failedFile. unfold onOpen. rewrite L.
    cbn -[append]. destruct (vault f1); reflexivity.
Qed.

(** X12. A click on an item of the file menu that compares opens one
    modal, the one [onOpen] leaves for the file selected before as first
    file and the file of the menu as second, two files with different
    paths. The plugin itself shows no notice and keeps its selection. The
    modal is in a state a modal can be in and does not ask to select a
    file; it has raised no notice when both files were read, and the one
    notice "Error reading content for ..." when a read failed. *)
Theorem menu_compare_opens_modal (toLowerCase : string -> string)
    (vault : Vault) (p : Plugin.Plugin) (target : Plugin.TAbstractFile)
    (item : Plugin.MenuItem) (file : TFile) :
  In item (Plugin.fileMenu p target) ->
  Plugin.onClick item = Plugin.CompareWith file ->
  exists first m,
    Plugin.fileToCompare p = Some first /\
    m = onOpen vault (constructor first (Some file)) /\
    Plugin.click vault (Plugin.onClick item) p =
      Plugin.mkPlugin (Some first) (Plugin.shownNotices p)
                      (Plugin.openedModals p ++ [m]) /\
    file1 m = first /\ file2 m = Some file /\
    path first <> path file /\
    Search.Reachable toLowerCase m /\
    resultEl m <> [TextNode "Select a file to compare against."] /\
    (forall c1 c2,
       vault first = Content c1 -> vault file = Content c2 -> notices m = []) /\
    (readFails vault (constructor first (Some file)) ->
     exists failedFile,
       notices m = [("Error reading content for " ++ failedFile)%string]).
Proof.
  intros Hin Hc. apply fileMenu_in in Hin.
  destruct Hin as (f & -> & [->|(first & F & N & ->)]); [discriminate|].
  cbn in Hc. injection Hc as ->.
  exists first, (onOpen vault (constructor first (Some file))).
  destruct (onOpen_constructor vault first (Some file)) as (E1 & E2 & _).
  destruct (onOpen_two_files_notices vault first file) as [N1 N2].
  cbv zeta in *. cbn [Plugin.onClick Plugin.click]. rewrite F.
  unfold Plugin.openModal. rewrite F.
  repeat split; auto.
  - now apply Search.reach_open.
  - apply onOpen_two_files_not_prompt.
Qed.

Lemma menu_compare_opens_modal_witness :
  let a := mkTFile "a.md" "a" in
  let b := mkTFile "b.md" "b" in
  let vault := fun f : TFile =>
    if String.eqb (path f) "a.md" then Content "x" else Throws None in
  let p := Plugin.mkPlugin (Some a) [] [] in
  exists first m,
    Plugin.fileToCompare p = Some first /\
    m = onOpen vault (constructor first (Some b)) /\
    Plugin.click vault (Plugin.CompareWith b) p =
      Plugin.mkPlugin (Some first) [] ([] ++ [m]) /\
    file1 m = first /\ file2 m = Some b /\
    path first <> path b /\
    Search.Reachable (fun s => s) m /\
    resultEl m <> [TextNode "Select a file to compare against."] /\
    (forall c1 c2,
       vault first = Content c1 -> vault b = Content c2 -> notices m = []) /\
    (readFails vault (constructor first (Some b)) ->
     exists failedFile,
       notices m = [("Error reading content for " ++ failedFile)%string]).
Proof.
  intros a b vault p.
  apply (menu_compare_opens_modal (fun s => s) vault p (Plugin.TFileOf b "md")
           (Plugin.mkItem "Compare with: a" "diff" (Plugin.CompareWith b)) b).
  - right. left. reflexivity.
  - reflexivity.
Defined.

(** X13. Selecting a file for comparison is remembered until another
    file is selected or the plugin is unloaded: it survives a comparison,
    a later selection replaces it, and after [onunload] no menu offers a
    comparison. *)
Theorem selection_lifetime (vault : Vault) (p : Plugin.Plugin) (a : TFile) :
  let p1 := Plugin.click vault (Plugin.SelectForCompare a) p in
  Plugin.fileToCompare p1 = Some a /\
  Plugin.openedModals p1 = Plugin.openedModals p /\
  (forall b,
     Plugin.fileToCompare (Plugin.click vault (Plugin.CompareWith b) p1) = Some a) /\
  (forall b,
     Plugin.fileToCompare (Plugin.click vault (Plugin.SelectForCompare b) p1)
     = Some b) /\
  (forall target item,
     In item (Plugin.fileMenu (Plugin.onunload p1) target) ->
     exists file, Plugin.onClick item = Plugin.SelectForCompare file).
Proof.
  cbv zeta. repeat split.
  intros target item H. apply fileMenu_in in H.
  destruct H as (file & _ & [->|(first & F & _)]); [now exists file|].
  discriminate.
Qed.

(** X14. The command is available exactly when there is an active
    Markdown view with a file. Checking opens nothing. Running it opens
    one modal on that file without a second file, which, when the file can
    be read, asks to select a file, has run no diff and raised no
    notice. *)
Theorem command_opens_selection_prompt (toLowerCase : string -> string)
    (vault : Vault) (activeView : option (option TFile)) (checking : bool)
    (p : Plugin.Plugin) :
  let r := Plugin.checkCallback vault activeView checking p in
  (fst r = true <-> exists file, activeView = Some (Some file)) /\
  (checking = true -> snd r = p) /\
  (forall file c1,
     activeView = Some (Some file) -> checking = false ->
     vault file = Content c1 ->
     exists m,
       snd r = Plugin.mkPlugin (Plugin.fileToCompare p) (Plugin.shownNotices p)
                               (Plugin.openedModals p ++ [m]) /\
       file1 m = file /\ file2 m = None /\ file1Content m = c1 /\
       resultEl m = [TextNode "Select a file to compare against."] /\
       diffCalls m = [] /\ notices m = [] /\
       Search.Reachable toLowerCase m).
Proof.
  cbv zeta. split; [|split].
  - destruct activeView as [[file|]|]; cbn; split; intros H;
      try discriminate; eauto; destruct H as [f H]; discriminate.
  - intros ->. destruct activeView as [[file|]|]; reflexivity.
  - intros file c1 -> -> V.
    exists (onOpen vault (constructor file None)).
    cbn [Plugin.checkCallback snd negb]. unfold Plugin.openModal.
    split; [reflexivity|].
    assert (Search.Reachable toLowerCase (onOpen vault (constructor file None))) as R
      by (apply Search.reach_open; exact Logic.I).
    unfold onOpen, loadFilesContent in *.
    cbn -[updateDiffDisplay] in *. rewrite V in *.
    cbn -[updateDiffDisplay] in *.
    repeat split; auto.
Qed.

Lemma command_opens_selection_prompt_witness :
  let a := mkTFile "a.md" "a" in
  let vault := fun _ : TFile => Content "x" in
  snd (Plugin.checkCallback vault (Some (Some a)) true (Plugin.mkPlugin None [] []))
  = Plugin.mkPlugin None [] [].
Proof.
  intros a vault.
  destruct (command_opens_selection_prompt (fun s => s) vault (Some (Some a)) true
              (Plugin.mkPlugin None [] [])) as (_ & H & _).
  apply H. reflexivity.
Defined.

Lemma fileMenu_items_witness :
  In (Plugin.mkItem "Compare with: a" "diff" (Plugin.CompareWith (mkTFile "b.md" "b")))
     (Plugin.fileMenu (Plugin.mkPlugin (Some (mkTFile "a.md" "a")) [] [])
                      (Plugin.TFileOf (mkTFile "b.md" "b") "md")).
Proof.
  apply fileMenu_items. exists (mkTFile "b.md" "b"). split; [reflexivity|].
  right. exists (mkTFile "a.md" "a"). repeat split. discriminate.
Defined.

Lemma selection_lifetime_witness :
  exists file,
    Plugin.onClick (Plugin.mkItem "Select for compare" "copy"
                      (Plugin.SelectForCompare (mkTFile "b.md" "b")))
    = Plugin.SelectForCompare file.
Proof.
  destruct (selection_lifetime (fun _ => Content "") (Plugin.mkPlugin None [] [])
              (mkTFile "a.md" "a")) as (_ & _ & _ & _ & H).
  apply (H (Plugin.TFileOf (mkTFile "b.md" "b") "md")).
  left. reflexivity.
Defined.

(** ** Settings *)

Section SettingsFacts.

Variable V : Type.
Variable ofString : string -> V.

Lemma getProp_setProp (key k : string) (v : V) (o : Plugin.Obj V) :
  Plugin.getProp V key (Plugin.setProp V k v o) =
  if String.eqb key k then Some v else Plugin.getProp V key o.
Proof.
  induction o as [|[k' v'] o IH]; cbn.
  - destruct (String.eqb key k); reflexivity.
  - destruct (String.eqb_spec k k') as [->|N]; cbn.
    + destruct (String.eqb key k'); reflexivity.
    + rewrite IH. destruct (String.eqb_spec key k') as [->|N2]; [|reflexivity].
      apply String.eqb_neq in N. rewrite String.eqb_sym in N. now rewrite N.
Qed.

Lemma getProp_none (key : string) (o : Plugin.Obj V) :
  ~ In key (map fst o) -> Plugin.getProp V key o = None.
Proof.
  induction o as [|[k v] o IH]; cbn; intros H; [reflexivity|].
  destruct (String.eqb_spec key k) as [->|N]; [tauto|]. apply IH. tauto.
Qed.

Lemma getProp_assign (key : string) (source target : Plugin.Obj V) :
  NoDup (map fst source) ->
  Plugin.getProp V key (Plugin.assign V target (Some source)) =
  match Plugin.getProp V key source with
  | Some v => Some v
  | None => Plugin.getProp V key target
  end.
Proof.
  cbn [Plugin.assign]. revert target.
  induction source as [|[k v] s IH]; intros target D; [reflexivity|].
  cbn [map fst] in D. inversion D as [|? ? Hk Ds]; subst.
  cbn [fold_left fst snd Plugin.getProp]. rewrite (IH _ Ds), getProp_setProp.
  destruct (String.eqb_spec key k) as [->|N]; [|reflexivity].
  now rewrite (getProp_none k s Hk).
Qed.

(** X15. A loaded setting is the stored value when the stored data has
    that key and the default otherwise; without stored data the settings
    are the defaults, and [mySetting] always has a value. *)
Theorem loadSettings_defaults (data : option (Plugin.Obj V)) (key : string) :
  match data with Some d => NoDup (map fst d) | None => True end ->
  Plugin.getProp V key (Plugin.loadSettings V ofString data) =
    match data with
    | Some d =>
        match Plugin.getProp V key d with
        | Some v => Some v
        | None => Plugin.getProp V key (Plugin.DEFAULT_SETTINGS V ofString)
        end
    | None => Plugin.getProp V key (Plugin.DEFAULT_SETTINGS V ofString)
    end /\
  Plugin.getProp V "mySetting" (Plugin.loadSettings V ofString data) <> None /\
  Plugin.loadSettings V ofString None = Plugin.DEFAULT_SETTINGS V ofString.
Proof.
  intros D. unfold Plugin.loadSettings.
  assert (Plugin.assign V [] (Some (Plugin.DEFAULT_SETTINGS V ofString)) =
          Plugin.DEFAULT_SETTINGS V ofString) as E by reflexivity.
  rewrite E. destruct data as [d|]; [|repeat split; discriminate].
  split; [now apply getProp_assign|]. split; [|reflexivity].
  rewrite (getProp_assign _ _ _ D).
  destruct (Plugin.getProp V "mySetting" d); discriminate.
Qed.

End SettingsFacts.

Lemma loadSettings_defaults_witness :
  Plugin.getProp string "mySetting"
    (Plugin.loadSettings string (fun s => s) (Some [("other", "1"); ("mySetting", "mine")]))
  = Some "mine".
Proof.
  destruct (loadSettings_defaults string (fun s => s)
              (Some [("other", "1"); ("mySetting", "mine")]) "mySetting") as [H _].
  - repeat constructor; cbn; intuition discriminate.
  - exact H.
Defined.

Lemma existsb_eqb_In (x : string) (l : list string) :
  existsb (String.eqb x) l = true <-> In x l.
Proof.
  rewrite existsb_exists. split.
  - intros (y & H & E). apply String.eqb_eq in E. now subst.
  - intros H. exists x. split; [exact H|apply String.eqb_refl].
Qed.

Section DropdownFacts.

Variable display : option (string -> string).

Lemma addOptions_names (options : list string) :
  forall names dd,
    names = map snd dd -> NoDup names ->
    NoDup (map snd (fst (Plugin.addOptions display options names dd))) /\
    (forall x, In x names ->
       In x (map snd (fst (Plugin.addOptions display options names dd)))) /\
    (forall o, In o options ->
       In (Plugin.displayNameOf display o)
          (map snd (fst (Plugin.addOptions display options names dd)))).
Proof.
  induction options as [|o os IH]; intros names dd E D; cbn [Plugin.addOptions fst].
  - subst. repeat split; auto. intros o [].
  - destruct (existsb (String.eqb (Plugin.displayNameOf display o)) names) eqn:X.
    + destruct (IH names dd E D) as (I1 & I2 & I3).
      repeat split; auto. intros o' [<-|H]; [|auto].
      apply I2. now apply existsb_eqb_In.
    + assert (~ In (Plugin.displayNameOf display o) names) as N
        by (rewrite <- existsb_eqb_In; congruence).
      destruct (IH (names ++ [Plugin.displayNameOf display o])
                   (dd ++ [(o, Plugin.displayNameOf display o)])) as (I1 & I2 & I3).
      * rewrite map_app. now subst.
      * apply NoDup_app; [exact D|repeat constructor; intros []|].
        intros x Hx [<-|[]]. contradiction.
      * repeat split; auto.
        -- intros x Hx. apply I2. apply in_or_app. now left.
        -- intros o' [<-|H]; [|auto]. apply I2. apply in_or_app. right. now left.
Qed.

Lemma addOptions_first (options : list string) :
  forall names dd o dn,
    In (o, dn) (fst (Plugin.addOptions display options names dd)) ->
    In (o, dn) dd \/
    (dn = Plugin.displayNameOf display o /\ ~ In dn names /\
     exists before after,
       options = before ++ o :: after /\
       forall o', In o' before -> Plugin.displayNameOf display o' <> dn).
Proof.
  induction options as [|o0 os IH]; intros names dd o dn H;
    cbn [Plugin.addOptions fst] in H; [now left|].
  destruct (existsb (String.eqb (Plugin.displayNameOf display o0)) names) eqn:X.
  - apply IH in H. destruct H as [H|(E & N & before & after & -> & F)]; [now left|].
    right. repeat split; auto. exists (o0 :: before), after. split; [reflexivity|].
    intros o' [<-|Ho']; [|auto]. apply existsb_eqb_In in X. congruence.
  - assert (~ In (Plugin.displayNameOf display o0) names) as N0
      by (rewrite <- existsb_eqb_In; congruence).
    apply IH in H. destruct H as [H|(E & N & before & after & -> & F)].
    + apply in_app_or in H. destruct H as [H|[H|[]]]; [now left|].
      injection H as <- <-. right. repeat split; auto.
      exists [], os. split; [reflexivity|]. intros o' [].
    + right. split; [exact E|]. split.
      * intros Hn. apply N. apply in_or_app. now left.
      * exists (o0 :: before), after. split; [reflexivity|].
        intros o' [<-|Ho']; [|auto]. intros Eq. apply N.
        apply in_or_app. right. now left.
Qed.

(** X16. The dropdown never shows a display name twice, and shows the
    display name of every option. *)
Theorem dropdown_names_once (options : list string) :
  NoDup (map snd (Plugin.dropdownOptions display options)) /\
  (forall o, In o options ->
     In (Plugin.displayNameOf display o)
        (map snd (Plugin.dropdownOptions display options))).
Proof.
  unfold Plugin.dropdownOptions.
  destruct (addOptions_names options [] [] eq_refl (NoDup_nil _)) as (H1 & _ & H3).
  now split.
Qed.

(** X17. Among options with the same display name the first one wins:
    an entry of the dropdown is an option with its display name, and no
    option before it has that display name. *)
Theorem dropdown_first_option_wins (options : list string) (o dn : string) :
  In (o, dn) (Plugin.dropdownOptions display options) ->
  dn = Plugin.displayNameOf display o /\
  exists before after,
    options = before ++ o :: after /\
    forall o', In o' before -> Plugin.displayNameOf display o' <> dn.
Proof.
  unfold Plugin.dropdownOptions. intros H. apply addOptions_first in H.
  destruct H as [[]|(E & _ & H)]. now split.
Qed.

End DropdownFacts.

Lemma dropdown_names_once_witness :
  In "A" (map snd (Plugin.dropdownOptions (Some (fun s => if String.eqb s "c" then "C" else "A"))
                                          ["a"; "b"; "c"])).
Proof.
  destruct (dropdown_names_once (Some (fun s => if String.eqb s "c" then "C" else "A"))
              ["a"; "b"; "c"]) as [_ H].
  apply (H "b"). right. left. reflexivity.
Defined.

Lemma dropdown_first_option_wins_witness :
  "A" = Plugin.displayNameOf (Some (fun s => if String.eqb s "c" then "C" else "A")) "a".
Proof.
  destruct (dropdown_first_option_wins
              (Some (fun s => if String.eqb s "c" then "C" else "A"))
              ["a"; "b"; "c"] "a" "A") as [H _].
  - left. reflexivity.
  - exact H.
Defined.

(** ** The two versions of the modal *)

Lemma V2_updateDiffDisplay_agrees (s : DiffModalV2.State) :
  DiffModalV2.toV1 (DiffModalV2.updateDiffDisplay s) =
  updateDiffDisplay (DiffModalV2.toV1 s).
Proof.
  destruct s as [f1 f2 c2 c1 r cl n d].
  unfold DiffModalV2.updateDiffDisplay, updateDiffDisplay, notReady,
    DiffModalV2.toV1, renderDiff.
  cbn -[diffLines renderPart].
  destruct c1, c2; cbn -[diffLines renderPart]; try reflexivity.
  now rewrite map_map.
Qed.

Lemma V2_updateDiffDisplay_closed (s : DiffModalV2.State) :
  DiffModalV2.closed (DiffModalV2.updateDiffDisplay s) = DiffModalV2.closed s.
Proof.
  destruct s as [f1 f2 c2 c1 r cl n d]. unfold DiffModalV2.updateDiffDisplay.
  cbn -[diffLines]. destruct c1, c2; reflexivity.
Qed.

(** X18. The modal that always takes two files behaves as the other one
    does when given two files: after [onOpen] on the same files and vault
    both hold the same contents and show the same result area, notices and
    diff calls. It differs in closing itself, which it does exactly when a
    read fails. *)
Theorem two_file_modal_agrees (vault : Vault) (s : DiffModalV2.State) :
  DiffModalV2.toV1 (DiffModalV2.onOpen vault s) =
    onOpen vault (DiffModalV2.toV1 s) /\
  (DiffModalV2.closed s = false ->
   (DiffModalV2.closed (DiffModalV2.onOpen vault s) = true <->
    readFails vault (DiffModalV2.toV1 s))).
Proof.
  destruct s as [f1 f2 c2 c1 r cl n d].
  unfold DiffModalV2.onOpen, onOpen, DiffModalV2.loadFilesContent,
    loadFilesContent, DiffModalV2.loadFailed, loadFailed, readFails.
  cbn -[DiffModalV2.updateDiffDisplay updateDiffDisplay append].
  destruct (vault f1) as [k1|m1] eqn:V1;
    cbn -[DiffModalV2.updateDiffDisplay updateDiffDisplay append];
    [destruct (vault f2) as [k2|m2] eqn:V2;
     cbn -[DiffModalV2.updateDiffDisplay updateDiffDisplay append]|].
  - rewrite V2_updateDiffDisplay_agrees, V2_updateDiffDisplay_closed.
    split; [reflexivity|]. cbn. intros ->. split; [discriminate|].
    intros [[m H]|(f & m & F & H)]; [discriminate|].
    injection F as <-. congruence.
  - split; [reflexivity|]. intros _. split; [|reflexivity].
    intros _. right. exists f2, m2. auto.
  - split; [reflexivity|]. intros _. split; [|reflexivity].
    intros _. left. now exists m1.
Qed.

Lemma two_file_modal_agrees_witness :
  let a := mkTFile "a.md" "a" in
  let b := mkTFile "b.md" "b" in
  let vault := fun f : TFile =>
    if String.eqb (path f) "a.md" then Content "x" else Throws None in
  DiffModalV2.closed (DiffModalV2.onOpen vault (DiffModalV2.constructor a b)) = true.
Proof.
  intros a b vault.
  destruct (two_file_modal_agrees vault (DiffModalV2.constructor a b)) as [_ H].
  apply H; [reflexivity|]. right. exists b, None. split; reflexivity.
Defined.

(** ** Reading the display back *)

Lemma join_split_terminated (t : string) :
  join (map (fun l => l ++ NL)%string (split t)) = (t ++ NL)%string.
Proof.
  induction t as [|c t IH]; [reflexivity|].
  cbn [split]. destruct (Ascii.eqb c nl) eqn:E.
  - apply Ascii.eqb_eq in E. subst c. cbn [map join fold_right].
    fold (join (map (fun l => l ++ NL)%string (split t))). rewrite IH. reflexivity.
  - destruct (split t) as [|l ls] eqn:K; [now apply split_not_nil in K|].
    cbn [map join fold_right] in *.
    fold (join (map (fun l => l ++ NL)%string ls)) in *.
    cbn [append]. f_equal. exact IH.
Qed.

Lemma concat_split (s : string) : String.concat NL (split s) = s.
Proof.
  induction s as [|c s IH]; [reflexivity|].
  cbn [split]. destruct (Ascii.eqb c nl) eqn:E.
  - apply Ascii.eqb_eq in E. subst c.
    destruct (split s) as [|l ls] eqn:K; [now apply split_not_nil in K|].
    cbn [String.concat] in *. cbn [append]. now rewrite IH.
  - destruct (split s) as [|l ls] eqn:K; [now apply split_not_nil in K|].
    destruct ls as [|l2 ls]; cbn [String.concat append] in *; now rewrite IH.
Qed.

(** Lines each followed by a line feed, but for the last one when
    [terminated] is false. *)
Lemma join_lines (terminated : bool) (lines : list string) :
  forall k total,
    total = k + List.length lines ->
    join (forEachFrom
            (fun line index =>
               (line ++ (if Nat.ltb index (total - 1) || terminated
                         then NL else ""))%string) k lines) =
    if terminated then join (map (fun l => l ++ NL)%string lines)
    else String.concat NL lines.
Proof.
  induction lines as [|l ls IH]; intros k total E.
  - destruct terminated; reflexivity.
  - cbn [forEachFrom join fold_right map].
    fold (join (forEachFrom
            (fun line index =>
               (line ++ (if Nat.ltb index (total - 1) || terminated
                         then NL else ""))%string) (S k) ls)).
    rewrite (IH (S k) total) by (cbn [List.length] in E; lia).
    destruct terminated.
    + rewrite orb_true_r. reflexivity.
    + rewrite orb_false_r. destruct ls as [|l2 ls].
      * cbn [List.length] in E.
        assert (Nat.ltb k (total - 1) = false) as -> by (apply Nat.ltb_ge; lia).
        cbn. now rewrite !append_empty_r.
      * cbn [List.length] in E.
        assert (Nat.ltb k (total - 1) = true) as -> by (apply Nat.ltb_lt; lia).
        cbn [String.concat]. now rewrite append_assoc.
Qed.

Lemma dropPrefix_prefixOf (part : Change) (line : string) :
  Display.dropPrefix (prefixOf part ++ line) = line.
Proof. unfold prefixOf. destruct (added part), (removed part); reflexivity. Qed.

Lemma shownText_renderPart (part : Change) :
  Display.shownText (renderPart part) = value part.
Proof.
  unfold Display.shownText, renderPart, forEach. cbn [lineSpans].
  assert (forall lines k,
    map Display.shownLine (forEachFrom (renderLine part (linesOf part)) k lines) =
    forEachFrom (fun line index =>
      (line ++ (if Nat.ltb index (List.length (linesOf part) - 1)
                     || endsWith (value part) NL
                then NL else ""))%string) k lines) as M.
  { induction lines as [|l ls IH]; intros k; [reflexivity|].
    cbn [forEachFrom map]. rewrite IH. f_equal.
    unfold Display.shownLine, renderLine. cbn [textContent br].
    now rewrite dropPrefix_prefixOf. }
  rewrite M, (join_lines _ _ 0 (List.length (linesOf part))) by reflexivity.
  destruct (endsWith (value part) NL) eqn:E.
  - destruct (endsWith_NL_inv _ E) as [t Ht].
    rewrite (linesOf_terminated part t Ht), Ht. apply join_split_terminated.
  - destruct (String.eqb_spec (value part) "") as [Z|N].
    + unfold linesOf. rewrite Z. reflexivity.
    + rewrite (linesOf_unterminated part N E). apply concat_split.
Qed.

(** X19. Nothing of a part is lost on display: the lines of its span,
    read behind their prefixes and with a line feed for every [br], give
    the text of the part back, and the span has as many lines as the text
    has. *)
Theorem part_text_is_shown (part : Change) :
  Display.shownText (renderPart part) = value part /\
  List.length (lineSpans (renderPart part)) = lineCount (value part).
Proof.
  split; [apply shownText_renderPart|].
  unfold renderPart, forEach. cbn [lineSpans].
  rewrite length_forEachFrom. apply length_popEmptyLast_split.
Qed.

Lemma shownSide_cons (skip : string) (sp : Span) (spans : list Span) :
  Display.shownSide skip (sp :: spans) =
  if String.eqb (cls sp) skip then Display.shownSide skip spans
  else (Display.shownText sp ++ Display.shownSide skip spans)%string.
Proof.
  unfold Display.shownSide. cbn [filter].
  destruct (String.eqb (cls sp) skip); reflexivity.
Qed.

Lemma shownSide_parts (parts : list Change) :
  Forall oneFlag parts ->
  Display.shownSide "diff-added" (map renderPart parts) = oldText parts /\
  Display.shownSide "diff-removed" (map renderPart parts) = newText parts.
Proof.
  induction 1 as [|part parts W _ [IH1 IH2]]; [split; reflexivity|].
  cbn [map]. rewrite !shownSide_cons, oldText_cons, newText_cons, IH1, IH2.
  rewrite (shownText_renderPart part).
  unfold oneFlag in W. cbn [renderPart cls]. unfold clsOf.
  destruct (added part), (removed part); try discriminate; split; reflexivity.
Qed.

(** X20. The display of a diff holds both documents in full: read back
    as above, the spans that are not added give the first text, and the
    spans that are not removed give the second. *)
Theorem display_shows_both_texts (a b : string) :
  Display.shownSide "diff-added" (renderDiff a b) = a /\
  Display.shownSide "diff-removed" (renderDiff a b) = b.
Proof.
  unfold renderDiff.
  destruct (shownSide_parts (diffLines a b)) as [H1 H2].
  - apply Forall_forall. intros part. apply diffLines_oneFlag.
  - now rewrite H1, H2, diffLines_oldText, diffLines_newText.
Qed.

(** ** Opening a modal on two files *)

(** X21. When both files are read and neither is empty, [onOpen] shows
    the diff of the two contents read, has run the diff once, on them,
    and has raised no notice. *)
Theorem onOpen_shows_diff (vault : Vault) (f1 f2 : TFile) (c1 c2 : string) :
  vault f1 = Content c1 -> vault f2 = Content c2 ->
  c1 <> "" -> c2 <> "" ->
  let st := onOpen vault (constructor f1 (Some f2)) in
  file1Content st = c1 /\ file2Content st = c2 /\
  resultEl st = map SpanNode (renderDiff c1 c2) /\
  diffCalls st = [(c1, c2)] /\
  notices st = [].
Proof.
  intros V1 V2 N1 N2. unfold onOpen, loadFilesContent.
  cbn -[updateDiffDisplay renderDiff]. rewrite V1.
  cbn -[updateDiffDisplay renderDiff]. rewrite V2.
  cbn -[updateDiffDisplay renderDiff].
  match goal with
  | |- context [updateDiffDisplay ?s] =>
      destruct (updateDiffDisplay_keeps s) as (_ & _ & K3 & K4 & K5);
      rewrite (updateDiffDisplay_resultEl s), (updateDiffDisplay_diffCalls s),
        K3, K4, K5
  end.
  unfold notReady. cbn -[renderDiff].
  apply falsy_false in N1, N2. rewrite N1, N2. repeat split.
Qed.

Lemma onOpen_shows_diff_witness :
  let a := mkTFile "a.md" "a" in
  let b := mkTFile "b.md" "b" in
  let vault := fun f : TFile =>
    if String.eqb (path f) "a.md" then Content "x" else Content "y" in
  diffCalls (onOpen vault (constructor a (Some b))) = [("x", "y")].
Proof.
  intros a b vault.
  destruct (onOpen_shows_diff vault a b "x" "y") as (_ & _ & _ & H & _);
    [reflexivity|reflexivity|discriminate|discriminate|exact H].
Defined.

(** X22. The file named in the notice of a failed read is taken from the
    error message, not from the read that failed: the first file when the
    message contains its basename, otherwise the second file, or "unknown
    file" when there is none or its basename is empty. *)
Theorem failed_read_names_file (vault : Vault) (f1 : TFile) (f2 : option TFile)
    (message : option string) :
  vault f1 = Throws message \/
  (exists c1 f, vault f1 = Content c1 /\ f2 = Some f /\ vault f = Throws message) ->
  notices (onOpen vault (constructor f1 f2)) =
  [("Error reading content for " ++
    (if match message with
        | Some m => includes m (basename f1)
        | None => false
        end
     then basename f1
     else match f2 with
          | Some f => if falsy (basename f) then "unknown file" else basename f
          | None => "unknown file"
          end))%string].
Proof.
  unfold onOpen, loadFilesContent, loadFailed.
  intros [V1|(c1 & f & V1 & -> & V2)];
    cbn -[append]; rewrite V1; cbn -[append]; [reflexivity|].
  rewrite V2. reflexivity.
Qed.

Lemma failed_read_names_file_witness :
  let a := mkTFile "a.md" "a" in
  let b := mkTFile "b.md" "b" in
  let vault := fun f : TFile =>
    if String.eqb (path f) "a.md" then Throws None else Content "y" in
  notices (onOpen vault (constructor a (Some b))) = ["Error reading content for b"].
Proof.
  intros a b vault.
  apply (failed_read_names_file vault a (Some b) None). left. reflexivity.
Defined.
